(** * incremental_archive.py: a shallow embedding and its properties

    The program scans the immediate subdirectories of the working directory,
    archives those with an entry newer than their stored watermark and keeps
    the watermarks in [archive-history.xml].

    Definitions come first:
    - [Calendar], [TimeLib]: the parts of Python 2's [datetime], [calendar]
      and [time] modules the program calls ([gmtime], [strftime],
      [strptime], [timegm]), for the single format string it uses;
    - [Xml]: the DOM that [xml.dom.minidom] hands to the program;
    - directory trees, exceptions and the world a run meets;
    - the monad [M] of the program's effects (the [history] dict that is
      mutated in place, the trace of prints and file-system writes,
      exceptions) and the program's functions under their own names;
    - what the properties speak of, and some particular worlds.
    The lemmas and theorems follow. *)


From Stdlib Require Import ZArith Lia String Ascii List Bool QArith Qcanon.
From stdpp Require Import base numbers gmap strings list.

Set Warnings "-register-all".

Open Scope Z_scope.

(** * Definitions *)

(** ** Bounded universal quantification by evaluation *)

Fixpoint forall_from (f : Z → bool) (lo : Z) (n : nat) : bool :=
  match n with
  | O => true
  | S n' => f lo && forall_from f (lo + 1) n'
  end.

(** ** The proleptic Gregorian calendar of [datetime] *)

Module Calendar.

(** [datetime._is_leap] *)
Definition is_leap (year : Z) : bool :=
  (year `mod` 4 =? 0) && (negb (year `mod` 100 =? 0) || (year `mod` 400 =? 0)).

(** [datetime._days_before_year]: days before January 1st of [year] *)
Definition days_before_year (year : Z) : Z :=
  let y := year - 1 in
  y * 365 + y `div` 4 - y `div` 100 + y `div` 400.

(** [datetime._days_in_month] *)
Definition days_in_month (year month : Z) : Z :=
  if month =? 2 then (if is_leap year then 29 else 28)
  else if (month =? 4) || (month =? 6) || (month =? 9) || (month =? 11) then 30
  else 31.

(** [datetime._days_before_month]: days in [year] before the first day
    of [month] *)
Definition days_before_month (year month : Z) : Z :=
  (if month =? 1 then 0 else if month =? 2 then 31 else if month =? 3 then 59
   else if month =? 4 then 90 else if month =? 5 then 120
   else if month =? 6 then 151 else if month =? 7 then 181
   else if month =? 8 then 212 else if month =? 9 then 243
   else if month =? 10 then 273 else if month =? 11 then 304 else 334)
  + (if (2 <? month) && is_leap year then 1 else 0).

(** [datetime._ymd2ord]: the ordinal of a date, 0001-01-01 being day 1 *)
Definition ymd2ord (year month day : Z) : Z :=
  days_before_year year + days_before_month year month + day.

(** The check of [datetime.date(year, month, day)]: [MINYEAR = 1],
    [MAXYEAR = 9999]; anything else raises [ValueError]. *)
Definition valid_date (year month day : Z) : bool :=
  (1 <=? year) && (year <=? 9999) && (1 <=? month) && (month <=? 12)
  && (1 <=? day) && (day <=? days_in_month year month).

(** [calendar._EPOCH_ORD = datetime.date(1970, 1, 1).toordinal()] *)
Definition EPOCH_ORD : Z := Eval vm_compute in ymd2ord 1970 1 1.

(** The date of a day number counted from 1970-01-01, as the C library's
    [gmtime] computes it; the 400-year era of 146097 days starts on
    March 1st. [civil_of_doe] is the date of a day of the era, with the
    year counted inside the era. *)
Definition civil_of_doe (doe : Z) : Z * Z * Z :=
  let yoe := (doe - doe `div` 1460 + doe `div` 36524 - doe `div` 146096) `div` 365 in
  let doy := doe - (365 * yoe + yoe `div` 4 - yoe `div` 100) in
  let mp := (5 * doy + 2) `div` 153 in
  let d := doy - (153 * mp + 2) `div` 5 + 1 in
  let m := if mp <? 10 then mp + 3 else mp - 9 in
  (yoe + (if m <=? 2 then 1 else 0), m, d).

Definition civil_from_days (z : Z) : Z * Z * Z :=
  let z := z + 719468 in
  let era := z `div` 146097 in
  let doe := z `mod` 146097 in
  let '(y, m, d) := civil_of_doe doe in
  (y + era * 400, m, d).

Definition era_day_ok (doe : Z) : bool :=
  let '(y, m, d) := civil_of_doe doe in
  (ymd2ord y m d =? doe - 305)
  && (1 <=? m) && (m <=? 12) && (1 <=? d) && (d <=? days_in_month y m)
  && (0 <=? y) && (y <=? 400).

End Calendar.

(** ** The calls into [time] and [calendar]

    The program uses one format string, ['%Y-%m-%d %H:%M:%S GMT'];
    [strftime] and [strptime] are modelled for that format. A [ValueError]
    is [None]. *)

Module TimeLib.

Import Calendar.

(** The first six fields of [time.struct_time] *)
Record struct_time := mk_tm {
  tm_year : Z; tm_mon : Z; tm_mday : Z;
  tm_hour : Z; tm_min : Z; tm_sec : Z
}.

Definition digit_char (d : Z) : ascii := ascii_of_N (Z.to_N (48 + d)).

Definition digit_val (c : ascii) : option Z :=
  let n := Z.of_N (N_of_ascii c) in
  if (48 <=? n) && (n <=? 57) then Some (n - 48) else None.

Fixpoint decimal_go (fuel : nat) (n : Z) (acc : string) : string :=
  let acc' := String (digit_char (n `mod` 10)) acc in
  match fuel with
  | O => acc'
  | S fuel' => if n <? 10 then acc' else decimal_go fuel' (n `div` 10) acc'
  end.

(** [str(n)] for [0 <= n]: a number below [2 ^ k] has at most [k]
    decimal digits. *)
Definition decimal (n : Z) : string :=
  decimal_go (Z.to_nat (Z.log2 n)) n "".

(** ['%02d' % n], for a field of [struct_time] *)
Definition zpad2 (n : Z) : string :=
  String (digit_char (n `div` 10)) (String (digit_char (n `mod` 10)) "").

(** The C library fails with [EOVERFLOW] when the year does not fit
    [tm_year], a C [int] counted from 1900; Python turns that into a
    [ValueError]. *)
Definition gmtime (secs : Z) : option struct_time :=
  let days := secs `div` 86400 in
  let rem := secs `mod` 86400 in
  let '(y, m, d) := civil_from_days days in
  if (- 2 ^ 31 <=? y - 1900) && (y - 1900 <? 2 ^ 31) then
    Some {| tm_year := y; tm_mon := m; tm_mday := d;
            tm_hour := rem `div` 3600;
            tm_min := (rem `mod` 3600) `div` 60;
            tm_sec := rem `mod` 60 |}
  else None.

(** Python 2 reads the year of the tuple through [gettmarg], with
    [time.accept2dyear] at its default: a year below 1900 is taken as a
    two-digit year when it is one, and refused otherwise. *)
Definition gettmarg_year (y : Z) : option Z :=
  if 1900 <=? y then Some y
  else if (69 <=? y) && (y <=? 99) then Some (y + 1900)
  else if (0 <=? y) && (y <=? 68) then Some (y + 2000)
  else None.

(** [time.strftime('%Y-%m-%d %H:%M:%S GMT', t)] *)
Definition strftime (t : struct_time) : option string :=
  y ← gettmarg_year (tm_year t);
  Some (decimal y +:+ "-" +:+ zpad2 (tm_mon t) +:+ "-" +:+ zpad2 (tm_mday t)
        +:+ " " +:+ zpad2 (tm_hour t) +:+ ":" +:+ zpad2 (tm_min t)
        +:+ ":" +:+ zpad2 (tm_sec t) +:+ " GMT").

Definition is_space (c : ascii) : bool :=
  let n := N_of_ascii c in ((9 <=? n) && (n <=? 13) || (n =? 32))%N.

(** Two decimal digits with a value in [lo .. hi] *)
Definition two_digits (lo hi : Z) (a b : ascii) : option Z :=
  x ← digit_val a; y ← digit_val b;
  let v := 10 * x + y in
  if (lo <=? v) && (v <=? hi) then Some v else None.

(** One decimal digit of at least [lo] *)
Definition one_digit (lo : Z) (a : ascii) : option Z :=
  x ← digit_val a; if lo <=? x then Some x else None.

(** A group whose alternatives are one or two characters long *)
Definition read_group (two : ascii → ascii → option Z) (one : ascii → option Z)
    (s : string) : option (Z * string) :=
  match s with
  | String a (String b rest) =>
      match two a b with
      | Some v => Some (v, rest)
      | None => v ← one a; Some (v, String b rest)
      end
  | String a EmptyString => v ← one a; Some (v, EmptyString)
  | EmptyString => None
  end.

Definition read_Y (s : string) : option (Z * string) :=
  match s with
  | String a (String b (String c (String d rest))) =>
      x3 ← digit_val a; x2 ← digit_val b; x1 ← digit_val c; x0 ← digit_val d;
      Some (1000 * x3 + 100 * x2 + 10 * x1 + x0, rest)
  | _ => None
  end.

Definition read_m := read_group (two_digits 1 12) (one_digit 1).

Definition read_d :=
  read_group
    (λ a b, match two_digits 1 31 a b with
            | Some v => Some v
            | None => if Ascii.eqb a " " then one_digit 1 b else None
            end)
    (one_digit 1).

Definition read_H := read_group (two_digits 0 23) (one_digit 0).

Definition read_M := read_group (two_digits 0 59) (one_digit 0).

Definition read_S := read_group (two_digits 0 61) (one_digit 0).

(** A literal character of the format, letters matched without case *)
Definition lower (c : ascii) : ascii :=
  let n := N_of_ascii c in
  if ((65 <=? n) && (n <=? 90))%N then ascii_of_N (n + 32) else c.

Definition expect (c : ascii) (s : string) : option string :=
  match s with
  | String a rest => if Ascii.eqb (lower a) (lower c) then Some rest else None
  | EmptyString => None
  end.

Fixpoint skip_spaces (s : string) : string :=
  match s with
  | String a rest => if is_space a then skip_spaces rest else s
  | EmptyString => s
  end.

(** [\s+] *)
Definition spaces (s : string) : option string :=
  match s with
  | String a rest => if is_space a then Some (skip_spaces rest) else None
  | EmptyString => None
  end.

(** [time.strptime(s, '%Y-%m-%d %H:%M:%S GMT')]: the match, the check
    that no data remains, and the date handed to [datetime.date], which
    refuses a day the month does not have and the year 0. *)
Definition strptime (s : string) : option struct_time :=
  '(year, s) ← read_Y s;
  s ← expect "-" s;
  '(month, s) ← read_m s;
  s ← expect "-" s;
  '(day, s) ← read_d s;
  s ← spaces s;
  '(hour, s) ← read_H s;
  s ← expect ":" s;
  '(minute, s) ← read_M s;
  s ← expect ":" s;
  '(second, s) ← read_S s;
  s ← spaces s;
  s ← expect "G" s;
  s ← expect "M" s;
  s ← expect "T" s;
  match s with
  | EmptyString =>
      if valid_date year month day
      then Some (mk_tm year month day hour minute second)
      else None
  | _ => None
  end.

(** *** [calendar.timegm] *)
Definition timegm (t : struct_time) : Z :=
  let days := ymd2ord (tm_year t) (tm_mon t) 1 - EPOCH_ORD + tm_mday t - 1 in
  let hours := days * 24 + tm_hour t in
  let minutes := hours * 60 + tm_min t in
  minutes * 60 + tm_sec t.

Definition four_digits (y : Z) : string :=
  String (digit_char (y `div` 1000))
    (String (digit_char ((y `div` 100) `mod` 10))
       (String (digit_char ((y `div` 10) `mod` 10))
          (String (digit_char (y `mod` 10)) ""))).

(** The canonical text of a date and time of day *)
Definition canonical (t : struct_time) : string :=
  decimal (tm_year t) +:+ "-" +:+ zpad2 (tm_mon t) +:+ "-" +:+ zpad2 (tm_mday t)
  +:+ " " +:+ zpad2 (tm_hour t) +:+ ":" +:+ zpad2 (tm_min t)
  +:+ ":" +:+ zpad2 (tm_sec t) +:+ " GMT".

(** 1900-01-01 00:00:00 and 10000-01-01 00:00:00, in seconds of the
    epoch *)
Definition T1900 : Z := -2208988800.

Definition T10000 : Z := 253402300800.

End TimeLib.

(** ** The DOM of [xml.dom.minidom] *)

Module Xml.

(** A node below the document: an element, or a node of another kind
    (text, comment, CDATA section, processing instruction, document
    type), of which the program reads [nodeName] only: ["#text"],
    ["#comment"], the target of a processing instruction, the name of
    the document type. *)
Inductive node :=
| Element (tagName : string) (attributes : gmap string string)
          (childNodes : list node)
| Other (nodeName : string).

Definition nodeName (n : node) : string :=
  match n with
  | Element tag _ _ => tag
  | Other name => name
  end.

(** A well-formed document has one root element; comments, processing
    instructions and the document type may stand before and after it. *)
Record document := mk_document {
  prolog : list string;
  root_tag : string;
  root_attributes : gmap string string;
  root_childNodes : list node;
  epilog : list string
}.

Definition documentElement (d : document) : node :=
  Element (root_tag d) (root_attributes d) (root_childNodes d).

(** [Document.childNodes] *)
Definition document_childNodes (d : document) : list node :=
  (Other <$> prolog d) ++ documentElement d :: (Other <$> epilog d).

(** [archive-history.xml] as [xml.dom.minidom.parse] finds it: [open]
    fails with [IOError] on a file that is absent or cannot be read,
    expat fails with [ExpatError] on text that is not well-formed. *)
Inductive file :=
| Absent
| Unreadable (strerror : string)
| IllFormed (expat_message : string)
| WellFormed (d : document).

(** What [parse] finds in the file that [toprettyxml] wrote: the
    serializer puts every child on a line of its own, which the parser
    reads back as white-space text nodes around the children. The
    attribute values are assumed to come back as they were set. *)
Definition pretty_childNodes (children : list node) : list node :=
  match children with
  | [] => []
  | _ => Other "#text" :: flat_map (λ c, [c; Other "#text"]) children
  end.

End Xml.

(** ** Directory trees, exceptions, the world of a run *)

(** A directory: its own modification time, its files and its
    subdirectories, in the order [os.listdir] gives them. A modification
    time is the rational number the float of [os.path.getmtime] stands
    for. *)
Inductive Tree :=
| Dir (mtime : Qc) (files : list (string * Qc)) (dirs : list (string * Tree)).

Inductive exn :=
| ExcInvalidFormat (msg : string)
| IOError (msg : string)
| ExpatError (msg : string)
| ValueError (msg : string)
| AttributeError (msg : string)
| OSError (msg : string)
| TarError (msg : string)
| IndexError (msg : string)
| KeyboardInterrupt.

(** [str(ex)] *)
Definition exn_str (e : exn) : string :=
  match e with
  | ExcInvalidFormat msg | IOError msg | ExpatError msg | ValueError msg
  | AttributeError msg | OSError msg | TarError msg | IndexError msg => msg
  | KeyboardInterrupt => ""
  end.

(** [isinstance(e, Exception)]: [KeyboardInterrupt] derives from
    [BaseException] only. *)
Definition is_Exception (e : exn) : bool :=
  match e with KeyboardInterrupt => false | _ => true end.

Inductive tar_stage := AtOpen | AtAdd | AtClose.

#[global] Instance tar_stage_eq_dec : EqDecision tar_stage.
Proof. solve_decision. Defined.

(** What a run meets outside the program. *)
Record World := mk_World {
  (** [archive-history.xml] when the run starts *)
  metadata : Xml.file;
  (** the directories among [os.listdir('.')], with their trees *)
  listing : list (string * Tree);
  (** an exception raised while [os.walk] and [os.path.getmtime] work on
      a subdirectory (a user interrupt, an entry that cannot be read) *)
  walk_fault : string → option exn;
  (** an exception raised by [tarfile] for an archive name, and by which
      of the three calls *)
  tar_fault : string → option (tar_stage * exn);
  (** [time.time()] when [create_archive] stamps a subdirectory *)
  time_time : string → Qc;
  (** an exception raised by [open('archive-history.xml', 'w')] *)
  save_fault : option exn
}.

(** What a run does to the outside. *)
Inductive event :=
| Print (line : string)
| TarOpen (archive_name : string)
| TarAdd (archive_name sub_dir : string)
| TarClose (archive_name : string)
| WriteHistory (d : Xml.document).

(** ** The monad of the program

    [history] is one dict, created by [parse_archive_history], mutated in
    place by [parse_dir_node] and [create_archive] and read by
    [save_history]: it is the state. What was assigned before an exception
    stays assigned. *)

Inductive outcome (A : Type) :=
| Ret (a : A)
| Raise (e : exn).

Arguments Ret {A} a.
Arguments Raise {A} e.

Definition M (A : Type) : Type :=
  gmap string Z → list event * gmap string Z * outcome A.

Definition ret {A} (a : A) : M A := λ h, ([], h, Ret a).

Definition bind {A B} (m : M A) (f : A → M B) : M B :=
  λ h, let '(t1, h1, r) := m h in
       match r with
       | Ret a => let '(t2, h2, r2) := f a h1 in (t1 ++ t2, h2, r2)
       | Raise e => (t1, h1, Raise e)
       end.

Definition raise {A} (e : exn) : M A := λ h, ([], h, Raise e).

(** [try: m except ... as e: handler e]; a handler re-raises what it does
    not catch. *)
Definition try_except {A} (m : M A) (handler : exn → M A) : M A :=
  λ h, let '(t1, h1, r) := m h in
       match r with
       | Ret a => (t1, h1, Ret a)
       | Raise e => let '(t2, h2, r2) := handler e h1 in (t1 ++ t2, h2, r2)
       end.

Definition emit (ev : event) : M unit := λ h, ([ev], h, Ret tt).

Definition print (line : string) : M unit := emit (Print line).

Definition get_history : M (gmap string Z) := λ h, ([], h, Ret h).

Definition set_item (key : string) (value : Z) : M unit :=
  λ h, ([], <[key := value]> h, Ret tt).

Definition new_dict : M unit := λ _, ([], ∅, Ret tt).

Declare Scope prog_scope.
Delimit Scope prog_scope with prog.

Notation "x <- m ;; k" := (bind m (λ x, k))
  (at level 100, m at next level, right associativity) : prog_scope.

Notation "m ;; k" := (bind m (λ _, k))
  (at level 100, right associativity) : prog_scope.

Open Scope prog_scope.

Definition trace {A} (r : list event * gmap string Z * outcome A) : list event :=
  r.1.1.

Definition final {A} (r : list event * gmap string Z * outcome A) : gmap string Z :=
  r.1.2.

Definition result {A} (r : list event * gmap string Z * outcome A) : outcome A :=
  r.2.

Import TimeLib.

(** ** The program *)

(** *** Loading the history *)

(** [node.getAttribute(name)]: the empty string for an attribute the
    element does not have; only elements have the method. *)
Definition getAttribute (n : Xml.node) (name : string) : M string :=
  match n with
  | Xml.Element _ attributes _ => ret (default "" (attributes !! name))
  | Xml.Other nodeName =>
      raise (AttributeError "instance has no attribute 'getAttribute'")
  end.

(** [not s], for a string *)
Definition is_empty (s : string) : bool := String.eqb s "".

(** [str(dir_node)], without the address of the object *)
Definition node_str (n : Xml.node) : string :=
  "<DOM Element: " +:+ Xml.nodeName n +:+ ">".

Definition assert_root_elements (root_elements : list Xml.node) : M unit :=
  if negb (length root_elements =? 1)%nat
  then raise (ExcInvalidFormat "Invalid root elements <archive> in metadata file")
  else ret tt.

Definition assert_version (version : string) : M unit :=
  if is_empty version
  then raise (ExcInvalidFormat "Lack of version attribute in metadata file")
  else ret tt.

Definition assert_dir_name (dir_name : string) (dir_node : Xml.node) : M unit :=
  if is_empty dir_name
  then raise (ExcInvalidFormat
                ("Missing name attribute for directory " +:+ node_str dir_node))
  else ret tt.

Definition assert_last_archivized (last_archivized_str : string)
    (dir_node : Xml.node) : M unit :=
  if is_empty last_archivized_str
  then raise (ExcInvalidFormat
                ("Missing lastArchivized attribute for directory "
                 +:+ node_str dir_node))
  else ret tt.

(** [xml.dom.minidom.parse('archive-history.xml')] *)
Definition minidom_parse (w : World) : M Xml.document :=
  match metadata w with
  | Xml.Absent => raise (IOError "No such file or directory: 'archive-history.xml'")
  | Xml.Unreadable strerror => raise (IOError strerror)
  | Xml.IllFormed msg => raise (ExpatError msg)
  | Xml.WellFormed d => ret d
  end.

Definition get_dir_nodes (w : World) : M (list Xml.node) :=
  archive_dom <- minidom_parse w ;;
  let root_elements := Xml.document_childNodes archive_dom in
  assert_root_elements root_elements ;;
  match root_elements with
  | [] => raise (IndexError "list index out of range")
  | archiveElement :: _ =>
      version <- getAttribute archiveElement "version" ;;
      assert_version version ;;
      match archiveElement with
      | Xml.Element _ _ childNodes =>
          ret (filter (λ node, Xml.nodeName node = "directory") childNodes)
      | Xml.Other _ => raise (AttributeError "childNodes")
      end
  end.

(** The message of the format error quotes the value; the text of the
    [ValueError] that Python appends to it is left out. *)
Definition get_last_archivized (dir_node : Xml.node) : M Z :=
  last_archivized_str <- getAttribute dir_node "lastArchivized" ;;
  assert_last_archivized last_archivized_str dir_node ;;
  last_archivized_str <- getAttribute dir_node "lastArchivized" ;;
  match strptime last_archivized_str with
  | Some t => ret (timegm t)
  | None =>
      raise (ExcInvalidFormat
               ("Invalid value [" +:+ last_archivized_str
                +:+ "] for attribute lastArchivized"))
  end.

Definition parse_dir_node (dir_node : Xml.node) : M unit :=
  dirName <- getAttribute dir_node "name" ;;
  assert_dir_name dirName dir_node ;;
  last_archivized <- get_last_archivized dir_node ;;
  set_item dirName last_archivized.

(** [for x in xs: body x] *)
Fixpoint for_each {A} (xs : list A) (body : A → M unit) : M unit :=
  match xs with
  | [] => ret tt
  | x :: xs' => body x ;; for_each xs' body
  end.

Definition parse_archive_history (w : World) : M unit :=
  new_dict ;;
  try_except
    (dir_nodes <- get_dir_nodes w ;;
     for_each dir_nodes parse_dir_node)
    (λ ex, match ex with
           | IOError _ => ret tt
           | ExpatError msg =>
               raise (ExcInvalidFormat
                        ("Invalid format archive-history.xml - " +:+ msg))
           | _ => raise ex
           end).

(** *** Detecting a change *)

(** A comparison of a float with an int is exact in Python. *)
Definition newer (file_mtime : Qc) (max_mtime : Z) : bool :=
  bool_decide (Qc_of_Z max_mtime < file_mtime)%Qc.

(** [os.path.join(curdir, name)] on a POSIX system, for the relative
    paths [os.walk] builds *)
Definition path_join (curdir name : string) : string :=
  curdir +:+ "/" +:+ name.

(** [if name in dirs: dirs.remove(name)]: the first entry of that name
    goes. *)
Fixpoint remove_name {A} (name : string) (dirs : list (string * A))
    : list (string * A) :=
  match dirs with
  | [] => []
  | (n, x) :: rest =>
      if String.eqb n name then rest else (n, x) :: remove_name name rest
  end.

(** The triples [(curdir, mtime of curdir, files)] that the loop of
    [is_modified_after] gets from [os.walk(directory)], in order:
    the walk is top-down, and the loop takes ['CVS'] and ['.svn'] out of
    [dirs] before the generator descends. *)
Fixpoint walk (curdir : string) (t : Tree)
    : list (string * Qc * list (string * Qc)) :=
  match t with
  | Dir mtime files dirs =>
      (curdir, mtime, files)
      :: concat (snd <$> remove_name ".svn" (remove_name "CVS"
           ((λ d, (d.1, walk (path_join curdir d.1) d.2)) <$> dirs)))
  end.

(** The inner loop over [files] *)
Fixpoint first_newer_file (curdir : string) (files : list (string * Qc))
    (max_mtime : Z) : option (string * Qc) :=
  match files with
  | [] => None
  | (fname, file_mtime) :: rest =>
      if newer file_mtime max_mtime
      then Some (path_join curdir fname, file_mtime)
      else first_newer_file curdir rest max_mtime
  end.

(** The outer loop over the directories of the walk *)
Fixpoint scan (visits : list (string * Qc * list (string * Qc)))
    (max_mtime : Z) : M (option Qc) :=
  match visits with
  | [] => ret None
  | (curdir, file_mtime, files) :: rest =>
      if newer file_mtime max_mtime then
        print ("---- Dir " +:+ curdir +:+ " was modified") ;;
        ret (Some file_mtime)
      else
        match first_newer_file curdir files max_mtime with
        | Some (path, file_mtime) =>
            print ("---- File " +:+ path +:+ " was modified") ;;
            ret (Some file_mtime)
        | None => scan rest max_mtime
        end
  end.

(** [is_modified_after(directory, max_mtime)], [tree] being what the file
    system holds under [directory]. The function prints only when it
    returns, so an exception during the walk leaves no other trace. *)
Definition is_modified_after (w : World) (directory : string) (tree : Tree)
    (max_mtime : Z) : M (option Qc) :=
  match walk_fault w directory with
  | Some ex => raise ex
  | None => scan (walk directory tree) max_mtime
  end.

(** *** Archiving *)

Definition get_archive_name (sub_dir : string) : string :=
  "z-backup-" +:+ sub_dir +:+ ".tar.gz".

Definition sec_to_str_time (secnum : Z) : M string :=
  match gmtime secnum with
  | None => raise (ValueError "timestamp out of range for platform time_t")
  | Some t =>
      match strftime t with
      | None => raise (ValueError "year out of range")
      | Some s => ret s
      end
  end.

Definition get_last_archivized_time (sub_dir : string) : M (Z * string) :=
  history <- get_history ;;
  let last_archivized_time :=
    match history !! sub_dir with
    | Some t => t
    | None => -1
    end in
  if 0 <=? last_archivized_time then
    last_archivized_time_str <- sec_to_str_time last_archivized_time ;;
    ret (last_archivized_time, last_archivized_time_str)
  else ret (last_archivized_time, "never").

(** One call of [tarfile]: it raises what the world says it raises at
    this stage, and otherwise does its work. *)
Definition tar_call (w : World) (archive_name : string) (stage : tar_stage)
    (ev : event) : M unit :=
  match tar_fault w archive_name with
  | Some (stage', ex) =>
      if bool_decide (stage' = stage) then raise ex else emit ev
  | None => emit ev
  end.

(** [int(x)] of a float: towards zero *)
Definition int_of_float (x : Qc) : Z := Z.quot (Qnum x) (Zpos (Qden x)).

Definition create_archive (w : World) (sub_dir archive_name : string) : M unit :=
  tar_call w archive_name AtOpen (TarOpen archive_name) ;;
  tar_call w archive_name AtAdd (TarAdd archive_name sub_dir) ;;
  tar_call w archive_name AtClose (TarClose archive_name) ;;
  set_item sub_dir (int_of_float (time_time w sub_dir)).

(** [if x:] for [x] a float or [None]: [None] and [0.0] are false. *)
Definition truthy (x : option Qc) : bool :=
  match x with
  | None => false
  | Some v => negb (bool_decide (v = 0%Qc))
  end.

(** ['%-30s' % s] *)
Definition ljust30 (s : string) : string :=
  s +:+ String.concat "" (replicate (30 - String.length s) " ").

Definition try_archive (w : World) (sub_dir : string) (tree : Tree)
    (archive_name : string) : M unit :=
  last <- get_last_archivized_time sub_dir ;;
  print ("## Dir " +:+ ljust30 sub_dir +:+ " " +:+ last.2 +:+ " last processed") ;;
  isModified <- is_modified_after w sub_dir tree last.1 ;;
  if truthy isModified then
    print ("---- Creating archive " +:+ archive_name) ;;
    create_archive w sub_dir archive_name
  else ret tt.

(** *** The loop over the subdirectories *)

(** The body of the loop of [update_archives] with its handlers: [true]
    when the loop goes on, [false] after a [break]. *)
Definition update_step (w : World) (sub_dir : string) (tree : Tree) : M bool :=
  let archive_name := get_archive_name sub_dir in
  try_except
    (try_archive w sub_dir tree archive_name ;; ret true)
    (λ ex, match ex with
           | KeyboardInterrupt =>
               print ("Interrupt creating " +:+ archive_name) ;; ret false
           | _ =>
               if is_Exception ex then
                 print ("Error in creating " +:+ archive_name +:+ " - "
                        +:+ exn_str ex) ;;
                 ret false
               else raise ex
           end).

(** The loop; the result tells whether it ran to its end, [false] after
    a [break]. *)
Fixpoint update_loop (w : World) (sub_dirs : list (string * Tree)) : M bool :=
  match sub_dirs with
  | [] => ret true
  | (sub_dir, tree) :: rest =>
      go_on <- update_step w sub_dir tree ;;
      if go_on then update_loop w rest else ret false
  end.

(** [get_sub_dirs('.')] *)
Definition get_sub_dirs (w : World) : list (string * Tree) := listing w.

Definition update_archives (w : World) : M unit :=
  update_loop w (get_sub_dirs w) ;; ret tt.

(** *** Saving the history *)

Definition create_dir_tag (sub_dir : string) (last_archivized : Z) : M Xml.node :=
  last_archivized_str <- sec_to_str_time last_archivized ;;
  ret (Xml.Element "directory"
         (<["lastArchivized" := last_archivized_str]> (<["name" := sub_dir]> ∅))
         []).

(** The loop that fills [archive_tag]; a dict is gone through in an
    order of its own. *)
Fixpoint create_dir_tags (items : list (string * Z)) : M (list Xml.node) :=
  match items with
  | [] => ret []
  | (sub_dir, last_archivized) :: rest =>
      dir_tag <- create_dir_tag sub_dir last_archivized ;;
      dir_tags <- create_dir_tags rest ;;
      ret (dir_tag :: dir_tags)
  end.

Definition save_history (w : World) : M unit :=
  dirs <- get_history ;;
  dir_tags <- create_dir_tags (map_to_list dirs) ;;
  match save_fault w with
  | Some ex => raise ex
  | None =>
      emit (WriteHistory
              (Xml.mk_document [] "archive" (<["version" := "1"]> ∅)
                 (Xml.pretty_childNodes dir_tags) []))
  end.

Definition main (w : World) : M unit :=
  parse_archive_history w ;;
  update_archives w ;;
  save_history w.

(** A run starts without a dict. *)
Definition run (w : World) : list event * gmap string Z * outcome unit :=
  main w ∅.

(** ** What the properties speak of *)

(** The modification times [is_modified_after] is meant to look at, in
    the order of the walk: the directory's own, those of its files, then
    those of every subdirectory that is not named [CVS] or [.svn]. *)
Definition pruned (name : string) : bool :=
  String.eqb name "CVS" || String.eqb name ".svn".

Fixpoint inspected (t : Tree) : list Qc :=
  match t with
  | Dir mtime files dirs =>
      mtime :: (snd <$> files)
      ++ concat ((λ d, if pruned d.1 then [] else inspected d.2) <$> dirs)
  end.

(** A directory holds no two subdirectories of one name. *)
Fixpoint wf_tree (t : Tree) : bool :=
  match t with
  | Dir _ _ dirs =>
      bool_decide (NoDup (fst <$> dirs)) && forallb (λ d, wf_tree d.2) dirs
  end.

(** The modification times a list of visits holds *)
Definition visit_mtimes (v : string * Qc * list (string * Qc)) : list Qc :=
  v.1.2 :: (snd <$> v.2).

Definition is_print (ev : event) : bool :=
  match ev with Print _ => true | _ => false end.

Definition newer_than (max_mtime : Z) (m : Qc) : Prop :=
  (Qc_of_Z max_mtime < m)%Qc.

(** The watermark [try_archive] uses: the stored time, or the sentinel
    [-1] for a name the history does not have. *)
Definition watermark (h : gmap string Z) (sub_dir : string) : Z :=
  match h !! sub_dir with
  | Some t => t
  | None => -1
  end.

(** A time [sec_to_str_time] can write *)
Definition printable (secnum : Z) : Prop :=
  ∃ text, gmtime secnum ≫= strftime = Some text.

(** The events of [tarfile] for an archive *)
Definition archive_of (ev : event) : option string :=
  match ev with
  | TarOpen a | TarAdd a _ | TarClose a => Some a
  | Print _ | WriteHistory _ => None
  end.

Definition is_write (ev : event) : bool :=
  match ev with WriteHistory _ => true | _ => false end.

(** Every event is a print or an event of [tarfile] for [archive_name]. *)
Definition only_archive (archive_name : string) (t : list event) : Prop :=
  Forall (λ ev, is_print ev = true ∨ archive_of ev = Some archive_name) t.

(** The first time the walk finds newer than the watermark *)
Definition first_hit (sub_dir : string) (tree : Tree) (h : gmap string Z)
    : option Qc :=
  find (λ m, newer m (watermark h sub_dir))
       (concat (visit_mtimes <$> walk sub_dir tree)).

(** The line [update_archives] prints for an exception *)
Definition error_line (archive_name : string) (ex : exn) : string :=
  match ex with
  | KeyboardInterrupt => "Interrupt creating " +:+ archive_name
  | _ => "Error in creating " +:+ archive_name +:+ " - " +:+ exn_str ex
  end.

(** [getAttribute], for the attributes of an element *)
Definition attribute (attributes : gmap string string) (name : string) : string :=
  default "" (attributes !! name).

(** A [directory] node the loader accepts: an element whose [name] is not
    empty and whose [lastArchivized] [strptime] can read. *)
Definition good_directory (n : Xml.node) : Prop :=
  match n with
  | Xml.Element _ attributes _ =>
      attribute attributes "name" ≠ ""
      ∧ is_Some (strptime (attribute attributes "lastArchivized"))
  | Xml.Other _ => False
  end.

(** A [directory] element the loader refuses: the [name] attribute is
    missing or empty, or the [lastArchivized] attribute is missing or
    empty, or its value is not a time in the format. *)
Definition bad_directory (n : Xml.node) : Prop :=
  match n with
  | Xml.Element _ attributes _ =>
      attribute attributes "name" = ""
      ∨ attribute attributes "lastArchivized" = ""
      ∨ strptime (attribute attributes "lastArchivized") = None
  | Xml.Other _ => False
  end.

#[global] Instance good_directory_dec n : Decision (good_directory n).
Proof. destruct n; cbn; apply _. Defined.

(** The [directory] nodes of a document *)
Definition dir_nodes_of (d : Xml.document) : list Xml.node :=
  filter (λ node, Xml.nodeName node = "directory") (Xml.root_childNodes d).

(** The body of the [try] of [parse_archive_history] *)
Definition history_nodes (w : World) : M unit :=
  dir_nodes <- get_dir_nodes w ;;
  for_each dir_nodes parse_dir_node.

(** The text [sec_to_str_time] gives *)
Definition time_text (secnum : Z) : string :=
  default "" (gmtime secnum ≫= strftime).

(** The [directory] element of an entry *)
Definition dir_tag_of (item : string * Z) : Xml.node :=
  Xml.Element "directory"
    (<["lastArchivized" := time_text item.2]> (<["name" := item.1]> ∅)) [].

(** The document [save_history] writes for a history *)
Definition document_of (h : gmap string Z) : Xml.document :=
  Xml.mk_document [] "archive" (<["version" := "1"]> ∅)
    (Xml.pretty_childNodes (dir_tag_of <$> map_to_list h)) [].

Definition assign (h : gmap string Z) (item : string * Z) : gmap string Z :=
  <[item.1 := item.2]> h.

(** The history a run starts from *)
Definition loaded (w : World) : gmap string Z :=
  final (parse_archive_history w ∅).

(** The exceptions raised in a run: in the body of the [try] of
    [parse_archive_history], in [try_archive] for a subdirectory the loop
    reaches, in [save_history]. *)
Inductive raised_in_run (w : World) : exn → Prop :=
| raised_loading ex :
    result (history_nodes w ∅) = Raise ex → raised_in_run w ex
| raised_archiving pre sub_dir tree post ex :
    result (parse_archive_history w ∅) = Ret tt →
    listing w = pre ++ (sub_dir, tree) :: post →
    result (update_loop w pre (loaded w)) = Ret true →
    result (try_archive w sub_dir tree (get_archive_name sub_dir)
              (final (update_loop w pre (loaded w)))) = Raise ex →
    raised_in_run w ex
| raised_saving ex :
    result (parse_archive_history w ∅) = Ret tt →
    result (save_history w (final (update_loop w (listing w) (loaded w))))
    = Raise ex →
    raised_in_run w ex.

(** An exception is reported when [update_archives] prints its line for
    it, or when it leaves [main], as it is or wrapped in a format error
    that quotes it: the interpreter then prints the traceback. *)
Definition reported (w : World) (ex : exn) : Prop :=
  (∃ archive_name, Print (error_line archive_name ex) ∈ trace (run w))
  ∨ result (run w) = Raise ex
  ∨ ∃ msg, ex = ExpatError msg
           ∧ result (run w)
             = Raise (ExcInvalidFormat
                        ("Invalid format archive-history.xml - " +:+ msg)).

(** The elements among the nodes *)
Definition is_element (n : Xml.node) : bool :=
  match n with Xml.Element _ _ _ => true | Xml.Other _ => false end.

(** ** Particular worlds *)

(** The float [n / d] *)
Definition qc (n d : Z) : Qc := Q2Qc (Qmake n (Z.to_pos d)).

(** A world in which nothing raises and the clock stands still *)
Definition no_faults (meta : Xml.file) (sub_dirs : list (string * Tree))
    (now : Qc) : World :=
  mk_World meta sub_dirs (λ _, None) (λ _, None) (λ _, now) None.

(** No history file; a directory dated 1970-01-01 00:00:00 that holds a
    recent file *)
Definition epoch_world : World :=
  no_faults Xml.Absent [("a", Dir 0%Qc [("f", qc 1700000000 1)] [])]
    (qc 1700000000 1).

(** The file of the program's own documentation, as the parser reads
    it *)
Definition sample_document : Xml.document :=
  Xml.mk_document [] "archive" (<["version" := "1"]> ∅)
    [Xml.Other "#text";
     Xml.Element "directory"
       (<["name" := "dir1"]>
          (<["lastArchivized" := "2011-02-03 18:34:54 GMT"]> ∅)) [];
     Xml.Other "#text"] [].

(** An empty directory *)
Definition fresh_tree : Tree := Dir (qc 5 1) [] [].

(** [dir1] was archived at 1296758094; a file is one second newer, and
    the newer [CVS] subdirectory does not count. *)
Definition touched_tree : Tree :=
  Dir (qc 1296758094 1) [("f", qc 1296758095 1)]
    [("CVS", Dir (qc 2000000000 1) [] [])].

(** Nothing is newer than 1296758094 outside [.svn]. *)
Definition untouched_tree : Tree :=
  Dir (qc 1296758094 1) [("f", qc 1296758000 1)]
    [(".svn", Dir (qc 2000000000 1) [("entries", qc 2000000000 1)] [])].

(** The clock reads 1700000000.05 at every stamp. *)
Definition sample_world : World :=
  no_faults (Xml.WellFormed sample_document)
    [("dir0", fresh_tree); ("dir1", touched_tree)] (qc 34000000001 20).

(** What [tarfile] raises when the disk is full *)
Definition disk_full : exn := IOError "No space left on device".

(** Three new subdirectories; the archive of the second cannot be
    filled. *)
Definition fail_fast_world : World :=
  mk_World Xml.Absent
    [("dirA", fresh_tree); ("dirB", fresh_tree); ("dirC", fresh_tree)]
    (λ _, None)
    (λ archive_name,
       if String.eqb archive_name "z-backup-dirB.tar.gz"
       then Some (AtAdd, disk_full) else None)
    (λ _, qc 34000000001 20)
    None.

(** One new subdirectory, archived while the clock reads 0.75 *)
Definition sub_second_world : World :=
  no_faults Xml.Absent [("a", fresh_tree)] (qc 3 4).

(** A comment before the root element: one root element, with its
    [version], no [directory]; the loader counts two nodes at the top. *)
Definition commented_document : Xml.document :=
  Xml.mk_document ["#comment"] "archive" (<["version" := "1"]> ∅) [] [].

(** A [version] attribute that is there and empty *)
Definition empty_version_document : Xml.document :=
  Xml.mk_document [] "archive" (<["version" := ""]> ∅) [] [].

(** A history file that is not XML *)
Definition ill_formed_world : World :=
  no_faults (Xml.IllFormed "mismatched tag: line 3, column 2")
    [("dir0", fresh_tree)] (qc 34000000001 20).

(** A history file that is there and cannot be opened *)
Definition unreadable_world : World :=
  no_faults (Xml.Unreadable "[Errno 13] Permission denied: 'archive-history.xml'")
    [] 0%Qc.

(** [dir1] has not changed since it was archived. *)
Definition quiet_world : World :=
  no_faults (Xml.WellFormed sample_document)
    [("dir0", fresh_tree); ("dir1", untouched_tree)] (qc 34000000001 20).

(** ** More of what the properties speak of *)

(** The [name] a [directory] node carries, and the time its
    [lastArchivized] stands for *)
Definition dir_name (n : Xml.node) : string :=
  match n with
  | Xml.Element _ attributes _ => attribute attributes "name"
  | Xml.Other _ => ""
  end.

Definition dir_time (n : Xml.node) : option Z :=
  match n with
  | Xml.Element _ attributes _ =>
      timegm <$> strptime (attribute attributes "lastArchivized")
  | Xml.Other _ => None
  end.

(** 0001-01-01 00:00:00, in seconds of the epoch *)
Definition T0001 : Z := -62135596800.

(** A time no C library can break down: the year does not fit an [int]. *)
Definition far_future : Z := 10 ^ 20.

(** The file of a history that holds two entries of one name *)
Definition twice_document : Xml.document :=
  Xml.mk_document [] "archive" (<["version" := "1"]> ∅)
    [Xml.Element "directory"
       (<["name" := "dir1"]>
          (<["lastArchivized" := "2011-02-03 18:34:54 GMT"]> ∅)) [];
     Xml.Element "directory"
       (<["name" := "dir2"]>
          (<["lastArchivized" := "2012-02-29 00:00:00 GMT"]> ∅)) [];
     Xml.Element "directory"
       (<["name" := "dir1"]>
          (<["lastArchivized" := "2013-01-01 00:00:00 GMT"]> ∅)) []] [].

Definition twice_world : World :=
  no_faults (Xml.WellFormed twice_document) [] 0%Qc.

(** The file of [sample_document] under another root tag, with a comment
    and an element of another name among the children *)
Definition noisy_document : Xml.document :=
  Xml.mk_document [] "history" (<["version" := "2"]> ∅)
    [Xml.Other "#comment";
     Xml.Element "directory"
       (<["name" := "dir1"]>
          (<["lastArchivized" := "2011-02-03 18:34:54 GMT"]> ∅)) [];
     Xml.Element "file" (<["name" := "dir9"]> ∅) []] [].

(** An event of [tarfile] *)
Definition is_tar (ev : event) : bool :=
  match ev with
  | TarOpen _ | TarAdd _ _ | TarClose _ => true
  | Print _ | WriteHistory _ => false
  end.

Import Calendar.

(** * Lemmas and theorems *)

Lemma forall_from_spec (f : Z → bool) (n : nat) :
  ∀ lo, forall_from f lo n = true → ∀ z, lo ≤ z < lo + Z.of_nat n → f z = true.
Proof.
  induction n as [|n IH]; intros lo Hall z Hz; [lia|].
  cbn [forall_from] in Hall. apply andb_prop in Hall as [Hlo Hrest].
  destruct (decide (z = lo)) as [->|Hne]; [done|].
  apply (IH (lo + 1)); [done|lia].
Qed.

(** ** The calendar *)

Lemma is_leap_shift y k : is_leap (y + 400 * k) = is_leap y.
Proof.
  unfold is_leap.
  replace (y + 400 * k) with (y + (100 * k) * 4) at 1 by lia.
  replace (y + 400 * k) with (y + (4 * k) * 100) at 1 by lia.
  replace (y + 400 * k) with (y + k * 400) by lia.
  by rewrite !Z_mod_plus_full.
Qed.

Lemma days_before_year_shift y k :
  days_before_year (y + 400 * k) = days_before_year y + 146097 * k.
Proof.
  unfold days_before_year. cbv zeta.
  replace (y + 400 * k - 1) with (y - 1 + (100 * k) * 4) at 2 by lia.
  replace (y + 400 * k - 1) with (y - 1 + (4 * k) * 100) at 2 by lia.
  replace (y + 400 * k - 1) with (y - 1 + k * 400) at 2 by lia.
  rewrite !Z_div_plus_full by lia. lia.
Qed.

Lemma ymd2ord_shift y m d k :
  ymd2ord (y + 400 * k) m d = ymd2ord y m d + 146097 * k.
Proof.
  unfold ymd2ord, days_before_month.
  rewrite is_leap_shift, days_before_year_shift. lia.
Qed.

Lemma days_in_month_shift y m k :
  days_in_month (y + 400 * k) m = days_in_month y m.
Proof. unfold days_in_month. by rewrite is_leap_shift. Qed.

Lemma era_days_ok doe : 0 ≤ doe < 146097 → era_day_ok doe = true.
Proof.
  intros H. apply (forall_from_spec era_day_ok (Z.to_nat 146097) 0); [|lia].
  vm_cast_no_check (eq_refl true).
Qed.

Lemma civil_of_doe_spec doe y m d :
  0 ≤ doe < 146097 → civil_of_doe doe = (y, m, d) →
  ymd2ord y m d = doe - 305
  ∧ 1 ≤ m ≤ 12 ∧ 1 ≤ d ≤ days_in_month y m ∧ 0 ≤ y ≤ 400.
Proof.
  intros Hdoe E. pose proof (era_days_ok doe Hdoe) as Hok.
  unfold era_day_ok in Hok. rewrite E in Hok.
  repeat (apply andb_prop in Hok as [Hok ?]). lia.
Qed.

(** The date of a day number has that day number as its ordinal, and is
    a date of the calendar. *)
Lemma civil_from_days_spec z y m d :
  civil_from_days z = (y, m, d) →
  ymd2ord y m d - EPOCH_ORD = z
  ∧ 1 ≤ m ≤ 12 ∧ 1 ≤ d ≤ days_in_month y m.
Proof.
  unfold civil_from_days.
  pose proof (Z.mod_pos_bound (z + 719468) 146097 ltac:(lia)) as Hdoe.
  pose proof (Z.div_mod (z + 719468) 146097 ltac:(lia)) as Hdm.
  destruct (civil_of_doe _) as [[y0 m0] d0] eqn:E.
  apply civil_of_doe_spec in E as (Hord & Hm & Hd & Hy); [|done].
  intros [= <- <- <-].
  replace (y0 + (z + 719468) `div` 146097 * 400)
    with (y0 + 400 * ((z + 719468) `div` 146097)) by lia.
  rewrite ymd2ord_shift, days_in_month_shift.
  change EPOCH_ORD with 719163. lia.
Qed.

Lemma days_before_year_mono y y' :
  y ≤ y' → days_before_year y ≤ days_before_year y'.
Proof. unfold days_before_year. intros H. Z.div_mod_to_equations. lia. Qed.

Lemma days_before_year_succ y :
  days_before_year (y + 1) = days_before_year y + (if is_leap y then 366 else 365).
Proof.
  unfold days_before_year, is_leap. cbv zeta.
  replace (y + 1 - 1) with y by lia.
  repeat case_match; rewrite ?andb_true_iff, ?andb_false_iff, ?orb_true_iff,
    ?orb_false_iff, ?negb_true_iff, ?negb_false_iff, ?Z.eqb_eq, ?Z.eqb_neq in *;
    Z.div_mod_to_equations; lia.
Qed.

Lemma ymd2ord_year_bounds y m d :
  1 ≤ m ≤ 12 → 1 ≤ d ≤ days_in_month y m →
  days_before_year y < ymd2ord y m d ≤ days_before_year (y + 1).
Proof.
  intros Hm Hd. rewrite days_before_year_succ.
  unfold ymd2ord, days_before_month, days_in_month in *.
  destruct (is_leap y);
    assert (m = 1 ∨ m = 2 ∨ m = 3 ∨ m = 4 ∨ m = 5 ∨ m = 6 ∨ m = 7 ∨ m = 8
            ∨ m = 9 ∨ m = 10 ∨ m = 11 ∨ m = 12) as Hcases by lia;
    repeat (destruct Hcases as [->|Hcases]; [cbn in *; lia|]);
    subst m; cbn in *; lia.
Qed.

(** The year of a day number, from the day numbers of two New Year's
    days. *)
Lemma civil_from_days_year z y m d lo hi :
  civil_from_days z = (y, m, d) →
  days_before_year lo + 1 - EPOCH_ORD ≤ z →
  z ≤ days_before_year (hi + 1) - EPOCH_ORD →
  lo ≤ y ≤ hi.
Proof.
  intros E Hlo Hhi.
  apply civil_from_days_spec in E as (Hord & Hm & Hd).
  pose proof (ymd2ord_year_bounds y m d Hm Hd) as Hb.
  split.
  - destruct (decide (lo ≤ y)) as [|Hn]; [done|].
    pose proof (days_before_year_mono (y + 1) lo ltac:(lia)). lia.
  - destruct (decide (y ≤ hi)) as [|Hn]; [done|].
    pose proof (days_before_year_mono (hi + 1) y ltac:(lia)). lia.
Qed.

(** ** Writing times and reading them back *)

Ltac digit_cases k :=
  let H := fresh in
  assert (k = 0 ∨ k = 1 ∨ k = 2 ∨ k = 3 ∨ k = 4 ∨ k = 5 ∨ k = 6 ∨ k = 7
          ∨ k = 8 ∨ k = 9) as H by lia;
  repeat (destruct H as [->|H]; [|]); [..|subst k].

Lemma digit_val_char k : 0 ≤ k ≤ 9 → digit_val (digit_char k) = Some k.
Proof. intros Hk. digit_cases k; reflexivity. Qed.

Lemma is_space_digit k : 0 ≤ k ≤ 9 → is_space (digit_char k) = false.
Proof. intros Hk. digit_cases k; reflexivity. Qed.

Lemma two_digits_zpad2 lo hi n :
  0 ≤ n < 100 → lo ≤ n ≤ hi →
  two_digits lo hi (digit_char (n `div` 10)) (digit_char (n `mod` 10)) = Some n.
Proof.
  intros Hn Hr. unfold two_digits.
  rewrite !digit_val_char by (Z.div_mod_to_equations; lia). cbn.
  replace (10 * (n `div` 10) + n `mod` 10) with n
    by (Z.div_mod_to_equations; lia).
  destruct (Z.leb_spec lo n), (Z.leb_spec n hi); done || lia.
Qed.

Lemma append_cons a s r : String a s +:+ r = String a (s +:+ r).
Proof. reflexivity. Qed.

Lemma append_nil r : "" +:+ r = r.
Proof. reflexivity. Qed.

Lemma read_group_zpad2 two one n rest :
  two (digit_char (n `div` 10)) (digit_char (n `mod` 10)) = Some n →
  read_group two one (zpad2 n +:+ rest) = Some (n, rest).
Proof.
  intros Htwo. unfold zpad2, read_group.
  by rewrite !append_cons, append_nil, Htwo.
Qed.

Lemma decimal_four_digits y : 1000 ≤ y ≤ 9999 → decimal y = four_digits y.
Proof.
  intros Hy. apply String.eqb_eq.
  apply (forall_from_spec (λ y, String.eqb (decimal y) (four_digits y))
           (Z.to_nat 9000) 1000); [|lia].
  vm_cast_no_check (eq_refl true).
Qed.

Lemma read_Y_decimal y rest :
  1000 ≤ y ≤ 9999 → read_Y (decimal y +:+ rest) = Some (y, rest).
Proof.
  intros Hy. rewrite decimal_four_digits by done.
  unfold four_digits, read_Y. rewrite !append_cons, append_nil.
  rewrite !digit_val_char by (Z.div_mod_to_equations; lia).
  cbn [mbind option_bind]. do 2 f_equal. Z.div_mod_to_equations. lia.
Qed.

Lemma expect_literal c rest : expect c (String c "" +:+ rest) = Some rest.
Proof.
  rewrite append_cons, append_nil. unfold expect. by rewrite Ascii.eqb_refl.
Qed.

Lemma spaces_before_field n rest :
  0 ≤ n < 100 → spaces (" " +:+ zpad2 n +:+ rest) = Some (zpad2 n +:+ rest).
Proof.
  intros Hn. unfold zpad2. rewrite !append_cons, !append_nil.
  cbn [spaces skip_spaces]. change (is_space " ") with true. cbv iota.
  by rewrite is_space_digit by (Z.div_mod_to_equations; lia).
Qed.

Lemma strptime_canonical t :
  1000 ≤ tm_year t →
  valid_date (tm_year t) (tm_mon t) (tm_mday t) = true →
  0 ≤ tm_hour t ≤ 23 → 0 ≤ tm_min t ≤ 59 → 0 ≤ tm_sec t ≤ 61 →
  strptime (canonical t) = Some t.
Proof.
  destruct t as [y m d H M S]; cbn [tm_year tm_mon tm_mday tm_hour tm_min tm_sec].
  intros Hy Hv HH HM HS.
  pose proof Hv as Hv'. unfold valid_date in Hv'.
  repeat (apply andb_prop in Hv' as [Hv' ?]).
  assert (d ≤ 31) by (unfold days_in_month in *; repeat case_match; lia).
  unfold strptime, canonical;
    cbn [tm_year tm_mon tm_mday tm_hour tm_min tm_sec].
  rewrite read_Y_decimal by lia. cbn [mbind option_bind].
  rewrite expect_literal. cbn [mbind option_bind].
  unfold read_m. rewrite read_group_zpad2 by (apply two_digits_zpad2; lia).
  cbn [mbind option_bind].
  rewrite expect_literal. cbn [mbind option_bind].
  unfold read_d. rewrite read_group_zpad2
    by (rewrite two_digits_zpad2; [done|lia..]).
  cbn [mbind option_bind].
  rewrite spaces_before_field by lia. cbn [mbind option_bind].
  unfold read_H. rewrite read_group_zpad2 by (apply two_digits_zpad2; lia).
  cbn [mbind option_bind].
  rewrite expect_literal. cbn [mbind option_bind].
  unfold read_M. rewrite read_group_zpad2 by (apply two_digits_zpad2; lia).
  cbn [mbind option_bind].
  rewrite expect_literal. cbn [mbind option_bind].
  unfold read_S. rewrite read_group_zpad2 by (apply two_digits_zpad2; lia).
  cbn [mbind option_bind].
  change (spaces " GMT") with (Some "GMT"). cbn [mbind option_bind].
  change (expect "G" "GMT") with (Some "MT"). cbn [mbind option_bind].
  change (expect "M" "MT") with (Some "T"). cbn [mbind option_bind].
  change (expect "T" "T") with (Some ""). cbn [mbind option_bind].
  by rewrite Hv.
Qed.

(** The fields [gmtime] returns *)
Lemma gmtime_spec secs t :
  gmtime secs = Some t →
  ymd2ord (tm_year t) (tm_mon t) (tm_mday t) - EPOCH_ORD = secs `div` 86400
  ∧ 1 ≤ tm_mon t ≤ 12
  ∧ 1 ≤ tm_mday t ≤ days_in_month (tm_year t) (tm_mon t)
  ∧ tm_hour t * 3600 + tm_min t * 60 + tm_sec t = secs `mod` 86400
  ∧ 0 ≤ tm_hour t ≤ 23 ∧ 0 ≤ tm_min t ≤ 59 ∧ 0 ≤ tm_sec t ≤ 59.
Proof.
  unfold gmtime.
  destruct (civil_from_days _) as [[y m] d] eqn:E.
  apply civil_from_days_spec in E as (Hord & Hm & Hd).
  case_match; [|done]. intros [= <-]; cbn.
  pose proof (Z.mod_pos_bound secs 86400 ltac:(lia)).
  repeat split; try done; Z.div_mod_to_equations; lia.
Qed.

(** [timegm] undoes [gmtime] *)
Lemma timegm_gmtime secs t : gmtime secs = Some t → timegm t = secs.
Proof.
  intros Ht. apply gmtime_spec in Ht as (Hord & _ & _ & Hrem & _).
  unfold timegm. cbv zeta.
  replace (ymd2ord (tm_year t) (tm_mon t) 1 - EPOCH_ORD + tm_mday t - 1)
    with (secs `div` 86400) by (unfold ymd2ord in *; lia).
  pose proof (Z.div_mod secs 86400 ltac:(lia)). lia.
Qed.

(** The year [gmtime] finds, from the seconds of two New Year's
    midnights *)
Lemma gmtime_year_range lo hi secs :
  - 2 ^ 31 ≤ lo - 1900 → hi - 1900 < 2 ^ 31 →
  (days_before_year lo + 1 - EPOCH_ORD) * 86400 ≤ secs →
  secs < (days_before_year (hi + 1) + 1 - EPOCH_ORD) * 86400 →
  ∃ t, gmtime secs = Some t ∧ lo ≤ tm_year t ≤ hi.
Proof.
  intros Hlo Hhi Hs1 Hs2. unfold gmtime.
  destruct (civil_from_days _) as [[y m] d] eqn:E.
  assert (lo ≤ y ≤ hi) as Hy.
  { apply (civil_from_days_year _ _ _ _ lo hi) in E; [done|..];
      Z.div_mod_to_equations; lia. }
  destruct (Z.leb_spec (- 2 ^ 31) (y - 1900)), (Z.ltb_spec (y - 1900) (2 ^ 31));
    try lia.
  eexists; split; [done|]. done.
Qed.

Lemma gmtime_year secs :
  T1900 ≤ secs < T10000 →
  ∃ t, gmtime secs = Some t ∧ 1900 ≤ tm_year t ≤ 9999.
Proof.
  unfold T1900, T10000. intros Hs.
  apply gmtime_year_range; [lia..| |].
  - change EPOCH_ORD with 719163.
    change (days_before_year 1900) with 693595. lia.
  - change EPOCH_ORD with 719163.
    change (days_before_year (9999 + 1)) with 3652059. lia.
Qed.

(** What [strptime] returns is a date of the calendar and a time of
    day, with up to two leap seconds. *)
Lemma read_group_two_digits lo hi l1 s v rest :
  0 ≤ lo → 0 ≤ l1 →
  read_group (two_digits lo hi) (one_digit l1) s = Some (v, rest) →
  0 ≤ v ≤ Z.max hi 9.
Proof.
  intros Hlo Hl1. unfold read_group, two_digits, one_digit, digit_val.
  intros Hr.
  repeat (case_match; simplify_option_eq; try done);
    repeat match goal with
           | H : _ && _ = true |- _ => apply andb_prop in H as [? ?]
           end; lia.
Qed.

Lemma strptime_fields s t :
  strptime s = Some t →
  valid_date (tm_year t) (tm_mon t) (tm_mday t) = true
  ∧ 0 ≤ tm_hour t ≤ 23 ∧ 0 ≤ tm_min t ≤ 59 ∧ 0 ≤ tm_sec t ≤ 61.
Proof.
  unfold strptime. intros Hs.
  destruct (read_Y s) as [[year s1]|]; [|done]. cbn [mbind option_bind] in Hs.
  destruct (expect "-" s1) as [s2|]; [|done]. cbn [mbind option_bind] in Hs.
  destruct (read_m s2) as [[month s3]|]; [|done]. cbn [mbind option_bind] in Hs.
  destruct (expect "-" s3) as [s4|]; [|done]. cbn [mbind option_bind] in Hs.
  destruct (read_d s4) as [[day s5]|]; [|done]. cbn [mbind option_bind] in Hs.
  destruct (spaces s5) as [s6|]; [|done]. cbn [mbind option_bind] in Hs.
  destruct (read_H s6) as [[hour s7]|] eqn:EH; [|done].
  cbn [mbind option_bind] in Hs.
  destruct (expect ":" s7) as [s8|]; [|done]. cbn [mbind option_bind] in Hs.
  destruct (read_M s8) as [[minute s9]|] eqn:EM; [|done].
  cbn [mbind option_bind] in Hs.
  destruct (expect ":" s9) as [s10|]; [|done]. cbn [mbind option_bind] in Hs.
  destruct (read_S s10) as [[second s11]|] eqn:ES; [|done].
  cbn [mbind option_bind] in Hs.
  destruct (spaces s11) as [s12|]; [|done]. cbn [mbind option_bind] in Hs.
  destruct (expect "G" s12) as [s13|]; [|done]. cbn [mbind option_bind] in Hs.
  destruct (expect "M" s13) as [s14|]; [|done]. cbn [mbind option_bind] in Hs.
  destruct (expect "T" s14) as [s15|]; [|done]. cbn [mbind option_bind] in Hs.
  destruct s15; [|done].
  destruct (valid_date year month day) eqn:Hv; [|done].
  injection Hs as <-. cbn.
  apply read_group_two_digits in EH, EM, ES; try lia. repeat split; try done; lia.
Qed.

(** A time that [strptime] and [timegm] produced, if it is not negative,
    can be written by [strftime]: its year is between 1970 and 10000. *)
Lemma strptime_printable s t :
  strptime s = Some t → 0 ≤ timegm t →
  ∃ text, gmtime (timegm t) ≫= strftime = Some text.
Proof.
  intros Hs Hpos. apply strptime_fields in Hs as (Hv & HH & HM & HS).
  unfold valid_date in Hv. repeat (apply andb_prop in Hv as [Hv ?]).
  pose proof (ymd2ord_year_bounds (tm_year t) (tm_mon t) (tm_mday t)
                ltac:(lia) ltac:(lia)) as Hb.
  pose proof (days_before_year_mono (tm_year t + 1) 10000 ltac:(lia)) as Hmono.
  destruct (gmtime_year_range 1970 10000 (timegm t)) as (t' & Ht' & Hy);
    [lia..| | |].
  - change EPOCH_ORD with 719163.
    change (days_before_year 1970) with 719162. lia.
  - change EPOCH_ORD with 719163.
    change (days_before_year (10000 + 1)) with 3652425.
    change (days_before_year 10000) with 3652059 in Hmono.
    unfold timegm, ymd2ord in *. cbv zeta.
    change EPOCH_ORD with 719163. change (days_before_month _ 1) with 0 in *.
    cbn [tm_year tm_mon tm_mday] in *. lia.
  - rewrite Ht'. cbn [mbind option_bind]. unfold strftime, gettmarg_year.
    destruct (Z.leb_spec 1900 (tm_year t')); [|lia]. by eexists.
Qed.

(** Writing a time with [strftime] and reading it back with [strptime]
    and [timegm] gives the same number of seconds, for the years 1900 to
    9999. *)
Lemma time_round_trip secs :
  T1900 ≤ secs < T10000 →
  ∃ text, gmtime secs ≫= strftime = Some text
          ∧ timegm <$> strptime text = Some secs.
Proof.
  intros Hs. destruct (gmtime_year secs Hs) as (t & Ht & Hy).
  exists (canonical t). rewrite Ht. cbn [mbind option_bind].
  pose proof (gmtime_spec _ _ Ht) as (_ & Hm & Hd & _ & HH & HM & HS).
  split.
  - unfold strftime, gettmarg_year.
    destruct (Z.leb_spec 1900 (tm_year t)); [done|lia].
  - rewrite strptime_canonical; [|lia| |lia..].
    + cbn. f_equal. by apply timegm_gmtime.
    + unfold valid_date.
      repeat (apply andb_true_intro; split); apply Z.leb_le; lia.
Qed.

(** ** The change detector *)

Lemma Tree_nested_ind (P : Tree → Prop) :
  (∀ mtime files dirs, Forall (λ d, P d.2) dirs → P (Dir mtime files dirs)) →
  ∀ t, P t.
Proof.
  intros step. fix IH 1. intros [mtime files dirs]. apply step.
  induction dirs as [|[n c] dirs IHdirs]; constructor; [apply IH|apply IHdirs].
Qed.

Lemma remove_name_absent {A} name (l : list (string * A)) :
  name ∉ fst <$> l → remove_name name l = l.
Proof.
  induction l as [|[n x] l IH]; [done|]. cbn. intros Hn.
  rewrite not_elem_of_cons in Hn. destruct Hn as [Hne Hn].
  destruct (String.eqb_spec n name) as [->|_]; [done|]. by rewrite IH.
Qed.

(** Taking the first entry of a name out of a list of distinct names
    leaves the entries of the other names. *)
Lemma remove_name_filter {A} name (l : list (string * A)) :
  NoDup (fst <$> l) → remove_name name l = filter (λ d, d.1 ≠ name) l.
Proof.
  induction l as [|[n x] l IH]; [done|]. cbn [remove_name fmap list_fmap fst].
  intros Hnd. apply NoDup_cons in Hnd as [Hn Hnd].
  destruct (String.eqb_spec n name) as [->|Hne].
  - rewrite filter_cons_False by (cbn; naive_solver).
    rewrite <- IH by done. by rewrite remove_name_absent.
  - rewrite filter_cons_True by done. by rewrite IH.
Qed.

Lemma remove_name_fst {A} name (l : list (string * A)) :
  NoDup (fst <$> l) → NoDup (fst <$> remove_name name l).
Proof.
  intros Hnd. rewrite remove_name_filter by done.
  induction l as [|[n x] l IH]; [constructor|].
  cbn in Hnd. apply NoDup_cons in Hnd as [Hn Hnd].
  destruct (decide (n ≠ name)).
  - rewrite filter_cons_True by done. cbn. apply NoDup_cons. split; [|auto].
    intros Hin. apply Hn. apply list_elem_of_fmap in Hin as (y & -> & Hy).
    apply list_elem_of_filter in Hy as [_ Hy].
    apply list_elem_of_fmap. by exists y.
  - rewrite filter_cons_False by done. auto.
Qed.

Lemma pruned_spec name : pruned name = false ↔ name ≠ "CVS" ∧ name ≠ ".svn".
Proof.
  unfold pruned. rewrite orb_false_iff, !String.eqb_neq. done.
Qed.

Lemma prune_by_name {X} (g : string * Tree → list X) (dirs : list (string * Tree)) :
  concat (snd <$> filter (λ d, d.1 ≠ ".svn")
                    (filter (λ d, d.1 ≠ "CVS") ((λ d, (d.1, g d)) <$> dirs)))
  = concat ((λ d, if pruned d.1 then [] else g d) <$> dirs).
Proof.
  induction dirs as [|[n c] dirs IH]; [done|].
  cbn [fmap list_fmap fst]. rewrite filter_cons.
  destruct (pruned n) eqn:Hp.
  - case_decide as H1; cbn [fst] in H1.
    + rewrite filter_cons_False; [by rewrite IH|].
      cbn [fst]. intros H2.
      rewrite (proj2 (pruned_spec n) (conj H1 H2)) in Hp. done.
    + by rewrite IH.
  - apply pruned_spec in Hp as [H1 H2].
    rewrite decide_True by done. rewrite filter_cons_True by done.
    cbn [fmap list_fmap concat snd]. by rewrite IH.
Qed.

(** The walk of a well-formed tree visits the inspected entries, in
    order. *)
Lemma walk_inspected t :
  wf_tree t = true →
  ∀ curdir, concat (visit_mtimes <$> walk curdir t) = inspected t.
Proof.
  induction t as [mtime files dirs IH] using Tree_nested_ind.
  cbn [wf_tree walk inspected]. intros Hwf curdir.
  apply andb_prop in Hwf as [Hnd Hwf]. apply bool_decide_eq_true in Hnd.
  rewrite forallb_forall in Hwf.
  set (f := λ d : string * Tree, (d.1, walk (path_join curdir d.1) d.2)).
  assert (fst <$> (f <$> dirs) = fst <$> dirs) as Hfst.
  { rewrite <- list_fmap_compose. by apply list_fmap_ext. }
  rewrite (remove_name_filter ".svn")
    by (apply remove_name_fst; by rewrite Hfst).
  rewrite (remove_name_filter "CVS") by (by rewrite Hfst).
  unfold f. rewrite (prune_by_name (λ d, walk (path_join curdir d.1) d.2)).
  cbn [fmap list_fmap concat]. unfold visit_mtimes at 1. cbn [fst snd].
  rewrite <- app_comm_cons. f_equal. f_equal.
  clear Hnd Hfst f.
  induction dirs as [|[n c] dirs IHdirs]; [done|].
  apply Forall_cons in IH as [IHc IH].
  specialize (IHdirs IH (λ x Hx, Hwf x (or_intror Hx))).
  cbn [fmap list_fmap concat fst snd]. rewrite fmap_app, concat_app, IHdirs.
  f_equal. destruct (pruned n); [done|].
  apply IHc. apply (Hwf (n, c)). by left.
Qed.

Lemma find_app {A} (f : A → bool) (l1 l2 : list A) :
  find f (l1 ++ l2) = match find f l1 with Some x => Some x | None => find f l2 end.
Proof. induction l1 as [|x l1 IH]; [done|]. cbn. by destruct (f x). Qed.

Lemma first_newer_file_find curdir files max_mtime :
  snd <$> first_newer_file curdir files max_mtime
  = find (λ m, newer m max_mtime) (snd <$> files).
Proof.
  induction files as [|[fname m] files IH]; [done|]. cbn.
  by destruct (newer m max_mtime).
Qed.

(** The loop returns the first inspected time that is newer, prints at
    most one line and leaves the history alone. *)
Lemma scan_spec visits max_mtime h :
  ∃ out, scan visits max_mtime h
         = (out, h, Ret (find (λ m, newer m max_mtime)
                           (concat (visit_mtimes <$> visits))))
         ∧ forallb is_print out = true.
Proof.
  induction visits as [|[[curdir m] files] visits IH]; [by exists []|].
  cbn [scan fmap list_fmap concat]. unfold visit_mtimes at 1. cbn [fst snd].
  cbn [app find]. destruct (newer m max_mtime) eqn:Hm.
  - by eexists.
  - rewrite find_app, <- (first_newer_file_find curdir).
    destruct (first_newer_file curdir files max_mtime) as [[path fm]|].
    + by eexists.
    + apply IH.
Qed.

Lemma newer_true m max_mtime : newer m max_mtime = true ↔ newer_than max_mtime m.
Proof. unfold newer. apply bool_decide_eq_true. Qed.

Lemma find_newer_None max_mtime (ms : list Qc) :
  find (λ m, newer m max_mtime) ms = None
  ↔ ¬ ∃ m, m ∈ ms ∧ newer_than max_mtime m.
Proof.
  split.
  - intros Hnone (m & Hin & Hm). apply list_elem_of_In in Hin.
    apply (find_none _ _ Hnone) in Hin. apply newer_true in Hm. congruence.
  - intros Hno. destruct (find _ ms) as [m|] eqn:Hf; [|done].
    apply find_some in Hf as [Hin Hm]. destruct Hno. exists m.
    split; [by apply list_elem_of_In|by apply newer_true].
Qed.

Lemma find_newer_first max_mtime (ms : list Qc) m :
  find (λ m, newer m max_mtime) ms = Some m →
  newer_than max_mtime m
  ∧ ∃ before after, ms = before ++ m :: after
                    ∧ Forall (λ x, ¬ newer_than max_mtime x) before.
Proof.
  induction ms as [|x ms IH]; [done|]. cbn.
  destruct (newer x max_mtime) eqn:Hx.
  - intros [= ->]. split; [by apply newer_true|]. by exists [], ms.
  - intros Hf. destruct (IH Hf) as (Hm & before & after & -> & Hall).
    split; [done|]. exists (x :: before), after. split; [done|].
    constructor; [|done]. rewrite <- newer_true. congruence.
Qed.

(** C2. On a tree in which no directory holds two subdirectories of one
    name, and when the walk is not cut short by an exception,
    [is_modified_after] returns the first inspected modification time, in
    the order of the walk, that is strictly greater than the watermark;
    the inspected times are the directories' own and those of all files,
    outside the subtrees named [CVS] and [.svn]. So it returns a time
    that is strictly greater than the watermark exactly when an inspected
    entry has one, and no value otherwise. It leaves the history as it
    was. *)
Theorem is_modified_after_first_newer w directory tree max_mtime h :
  wf_tree tree = true →
  walk_fault w directory = None →
  let r := is_modified_after w directory tree max_mtime h in
  result r = Ret (find (λ m, newer m max_mtime) (inspected tree))
  ∧ final r = h
  ∧ ((∃ m, result r = Ret (Some m) ∧ newer_than max_mtime m)
     ↔ (∃ m, m ∈ inspected tree ∧ newer_than max_mtime m))
  ∧ ((¬ ∃ m, m ∈ inspected tree ∧ newer_than max_mtime m) →
     result r = Ret None)
  ∧ (∀ m, result r = Ret (Some m) →
       newer_than max_mtime m
       ∧ ∃ before after, inspected tree = before ++ m :: after
                         ∧ Forall (λ x, ¬ newer_than max_mtime x) before).
Proof.
  intros Hwf Hfault. unfold is_modified_after. rewrite Hfault.
  destruct (scan_spec (walk directory tree) max_mtime h) as (out & -> & _).
  rewrite walk_inspected by done. cbn [result final fst snd].
  split; [done|]. split; [done|].
  destruct (find _ (inspected tree)) as [m|] eqn:Hf.
  - destruct (find_newer_first _ _ _ Hf) as (Hm & before & after & Heq & Hall).
    split; [|split].
    + split; [|by exists m].
      intros _. exists m. split; [|done]. rewrite Heq.
      apply elem_of_app. right. by left.
    + intros Hno. destruct Hno. exists m. split; [|done]. rewrite Heq.
      apply elem_of_app. right. by left.
    + intros m' [= <-]. split; [done|]. by exists before, after.
  - split; [|split].
    + split; [by intros (m & [= ] & _)|].
      intros Hex. by apply find_newer_None in Hf.
    + done.
    + by intros m [= ].
Qed.

(** The time returned is the first that qualifies, which need not be the
    greatest: here a file of time 7 is met before one of time 8. *)
Example is_modified_after_not_the_maximum :
  result (is_modified_after (no_faults Xml.Absent [] 0%Qc) "d"
            (Dir (qc 5 1) [("f", qc 7 1); ("g", qc 8 1)] []) 6 ∅)
  = Ret (Some (qc 7 1)).
Proof. reflexivity. Qed.

(** ** Archiving one subdirectory *)

Lemma sec_to_str_time_printable secnum h :
  printable secnum → ∃ text, sec_to_str_time secnum h = ([], h, Ret text).
Proof.
  intros [text Ht]. unfold sec_to_str_time.
  destruct (gmtime secnum) as [t|]; cbn in Ht; [|done]. rewrite Ht. by exists text.
Qed.

Lemma sec_to_str_time_pure secnum h :
  trace (sec_to_str_time secnum h) = [] ∧ final (sec_to_str_time secnum h) = h.
Proof.
  unfold sec_to_str_time.
  destruct (gmtime secnum) as [t|]; [|done]. by destruct (strftime t).
Qed.

Lemma get_last_archivized_time_pure sub_dir h :
  trace (get_last_archivized_time sub_dir h) = []
  ∧ final (get_last_archivized_time sub_dir h) = h
  ∧ ∀ last, result (get_last_archivized_time sub_dir h) = Ret last →
            last.1 = watermark h sub_dir.
Proof.
  unfold get_last_archivized_time, watermark, bind, get_history.
  destruct (0 <=? _); [|by repeat split; try intros last [= <-]].
  pose proof (sec_to_str_time_pure (match h !! sub_dir with
                                    | Some t => t | None => -1 end) h) as [Ht Hf].
  destruct (sec_to_str_time _ h) as [[t1 h1] [text|e]]; cbn in *; subst;
    repeat split; try done. by intros last [= <-].
Qed.

Lemma get_last_archivized_time_ok sub_dir h :
  (0 ≤ watermark h sub_dir → printable (watermark h sub_dir)) →
  ∃ text, get_last_archivized_time sub_dir h
          = ([], h, Ret (watermark h sub_dir, text)).
Proof.
  intros Hp. unfold get_last_archivized_time, bind, get_history.
  fold (watermark h sub_dir).
  destruct (Z.leb_spec 0 (watermark h sub_dir)) as [Hpos|Hneg]; [|by eexists].
  destruct (sec_to_str_time_printable _ h (Hp Hpos)) as [text ->].
  by exists text.
Qed.

Lemma only_archive_prints a t : forallb is_print t = true → only_archive a t.
Proof.
  intros Hp. apply Forall_forall. intros ev Hin. left.
  rewrite forallb_forall in Hp. apply Hp. by apply list_elem_of_In.
Qed.

(** What [create_archive] does, by what [tarfile] does. *)
Lemma create_archive_cases w sub_dir archive_name h :
  let r := create_archive w sub_dir archive_name h in
  match tar_fault w archive_name with
  | None =>
      r = ([TarOpen archive_name; TarAdd archive_name sub_dir;
            TarClose archive_name],
           (<[sub_dir := int_of_float (time_time w sub_dir)]> h), Ret tt)
  | Some (AtOpen, ex) => r = ([], h, Raise ex)
  | Some (AtAdd, ex) => r = ([TarOpen archive_name], h, Raise ex)
  | Some (AtClose, ex) =>
      r = ([TarOpen archive_name; TarAdd archive_name sub_dir], h, Raise ex)
  end.
Proof.
  unfold create_archive, tar_call, bind, emit, raise, set_item.
  destruct (tar_fault w archive_name) as [[[] ex]|]; reflexivity.
Qed.

(** C10. [create_archive] assigns to the history only after the archive
    is closed: when [tarfile] raises at the opening, the filling or the
    closing of the archive, [create_archive] raises the same exception
    and the history is what it was before the call; [update_archives]
    catches the exception and goes on to return that same history. *)
Theorem create_archive_atomic w sub_dir tree archive_name h stage ex :
  tar_fault w archive_name = Some (stage, ex) →
  result (create_archive w sub_dir archive_name h) = Raise ex
  ∧ final (create_archive w sub_dir archive_name h) = h
  ∧ (TarClose archive_name ∉ trace (create_archive w sub_dir archive_name h))
  ∧ (archive_name = get_archive_name sub_dir →
     final (update_step w sub_dir tree h) = h).
Proof.
  intros Hfault.
  pose proof (create_archive_cases w sub_dir archive_name h) as Hc.
  cbv zeta in Hc. rewrite Hfault in Hc.
  split; [|split; [|split]].
  - by destruct stage; rewrite Hc.
  - by destruct stage; rewrite Hc.
  - destruct stage; rewrite Hc; cbn [trace fst]; intros Hin;
      repeat (apply elem_of_cons in Hin as [Hin|Hin]; [done|]);
      by apply elem_of_nil in Hin.
  - intros ->. unfold update_step, try_except, try_archive, bind.
    pose proof (get_last_archivized_time_pure sub_dir h) as (_ & Hf & _).
    destruct (get_last_archivized_time sub_dir h) as [[t1 h1] [last|e]];
      cbn in Hf; subst h1; [|by destruct e].
    cbn [print emit]. unfold is_modified_after.
    destruct (walk_fault w sub_dir) as [e|]; [by destruct e|].
    destruct (scan_spec (walk sub_dir tree) last.1 h) as (out & -> & _).
    destruct (truthy _); [|done].
    cbn [print emit]. by destruct stage; cbn in Hc; rewrite Hc; destruct ex.
Qed.

(** The three ways through [try_archive]: an exception before anything is
    archived, nothing to archive, or [create_archive] after some
    prints. *)
Lemma try_archive_shape w sub_dir tree archive_name h :
  let r := try_archive w sub_dir tree archive_name h in
  let c := create_archive w sub_dir archive_name h in
  ∃ out, forallb is_print out = true ∧
    ((∃ e, r = (out, h, Raise e)
           ∧ ((0 ≤ watermark h sub_dir ∧ ¬ printable (watermark h sub_dir))
              ∨ walk_fault w sub_dir = Some e))
     ∨ (walk_fault w sub_dir = None
        ∧ truthy (first_hit sub_dir tree h) = false
        ∧ r = (out, h, Ret tt))
     ∨ (walk_fault w sub_dir = None
        ∧ truthy (first_hit sub_dir tree h) = true
        ∧ r = (out ++ trace c, final c, result c))).
Proof.
  cbv zeta. unfold try_archive, bind.
  destruct (decide (0 ≤ watermark h sub_dir → printable (watermark h sub_dir)))
    as [Hp|Hnp].
  - destruct (get_last_archivized_time_ok sub_dir h Hp) as [text ->].
    cbn [print emit fst snd app]. unfold is_modified_after.
    destruct (walk_fault w sub_dir) as [e|] eqn:Hw.
    { eexists; split; [|left; eexists; split; [done|by right]]. done. }
    destruct (scan_spec (walk sub_dir tree) (watermark h sub_dir) h)
      as (out & -> & Hout).
    fold (first_hit sub_dir tree h).
    destruct (truthy (first_hit sub_dir tree h)) eqn:Ht.
    + destruct (create_archive w sub_dir archive_name h) as [[t2 h2] r2].
      exists (Print ("## Dir " +:+ ljust30 sub_dir +:+ " " +:+ text
                     +:+ " last processed")
              :: out ++ [Print ("---- Creating archive " +:+ archive_name)]).
      split; [cbn; by rewrite forallb_app, Hout|].
      right; right. repeat split; try done.
      cbn [trace final result fst snd].
      by rewrite <- app_comm_cons, <- app_assoc.
    + exists (Print ("## Dir " +:+ ljust30 sub_dir +:+ " " +:+ text
                     +:+ " last processed") :: out).
      split; [cbn; by rewrite Hout|].
      right; left. repeat split; try done.
      unfold ret. cbn. by rewrite app_nil_r.
  - assert (0 ≤ watermark h sub_dir ∧ ¬ printable (watermark h sub_dir)) as Hbad.
    { destruct (decide (0 ≤ watermark h sub_dir)); [|by destruct Hnp].
      split; [done|]. intros Hpr. by apply Hnp. }
    pose proof (get_last_archivized_time_pure sub_dir h) as (Ht & Hf & _).
    destruct (get_last_archivized_time sub_dir h) as [[t1 h1] [last|e]] eqn:E;
      cbn in Ht, Hf; subst t1 h1.
    + exfalso. destruct Hbad as [Hpos Hnpr]. apply Hnpr.
      unfold get_last_archivized_time, bind, get_history in E.
      fold (watermark h sub_dir) in E.
      destruct (Z.leb_spec 0 (watermark h sub_dir)); [|lia].
      unfold sec_to_str_time, printable in *.
      destruct (gmtime (watermark h sub_dir)) as [t|]; [|done].
      cbn [mbind option_bind]. destruct (strftime t); [by eexists|done].
    + exists []. split; [done|]. left. exists e. by split; [|left].
Qed.

(** ** The loop *)

Lemma update_step_eq w sub_dir tree h :
  let r := try_archive w sub_dir tree (get_archive_name sub_dir) h in
  update_step w sub_dir tree h
  = match result r with
    | Ret _ => (trace r, final r, Ret true)
    | Raise ex =>
        (trace r ++ [Print (error_line (get_archive_name sub_dir) ex)],
         final r, Ret false)
    end.
Proof.
  cbv zeta. unfold update_step, try_except, bind.
  destruct (try_archive _ _ _ _ h) as [[t1 h1] [[]|ex]];
    cbn [trace final result fst snd ret].
  - by rewrite app_nil_r.
  - by destruct ex.
Qed.

Lemma update_loop_total w sub_dirs h :
  ∃ go_on, result (update_loop w sub_dirs h) = Ret go_on.
Proof.
  revert h. induction sub_dirs as [|[sub_dir tree] rest IH]; intros h.
  - by exists true.
  - cbn [update_loop]. unfold bind. rewrite update_step_eq. cbv zeta.
    destruct (result (try_archive _ _ _ _ h)).
    + destruct (IH (final (try_archive w sub_dir tree
                             (get_archive_name sub_dir) h))) as [b Hb].
      destruct (update_loop w rest _) as [[t2 h2] r2]. cbn in *. by exists b.
    + by exists false.
Qed.

(** The loop over a list in two parts: the second part runs only if the
    first ran to its end. *)
Lemma update_loop_app w l1 l2 h :
  update_loop w (l1 ++ l2) h
  = let r1 := update_loop w l1 h in
    match result r1 with
    | Ret true =>
        let r2 := update_loop w l2 (final r1) in
        (trace r1 ++ trace r2, final r2, result r2)
    | _ => r1
    end.
Proof.
  revert h. induction l1 as [|[sub_dir tree] l1 IH]; intros h.
  - cbn. by destruct (update_loop w l2 h) as [[t2 h2] r2].
  - cbn [app update_loop]. unfold bind. rewrite update_step_eq. cbv zeta.
    destruct (result (try_archive _ _ _ _ h)); [|done].
    rewrite IH. cbv zeta.
    destruct (update_loop w l1 _) as [[t1 h1] [[]|e]];
      cbn [trace final result fst snd]; [|done..].
    destruct (update_loop w l2 h1) as [[t2 h2] r2];
      cbn [trace final result fst snd]. by rewrite app_assoc.
Qed.

Lemma append_length a b : String.length (a +:+ b) = (String.length a + String.length b)%nat.
Proof.
  induction a as [|c a IH]; [done|].
  rewrite append_cons. cbn [String.length]. by rewrite IH.
Qed.

Lemma append_inj_l a b s : a +:+ s = b +:+ s → a = b.
Proof.
  revert b. induction a as [|c a IH]; intros [|c' b] Heq; [done|..].
  - apply (f_equal String.length) in Heq.
    rewrite append_nil, append_length in Heq. cbn [String.length] in Heq. lia.
  - apply (f_equal String.length) in Heq.
    rewrite append_nil, append_length in Heq. cbn [String.length] in Heq. lia.
  - rewrite !append_cons in Heq. injection Heq as -> Heq. f_equal. by apply IH.
Qed.

(** Archive names tell subdirectories apart. *)
Lemma get_archive_name_inj a b : get_archive_name a = get_archive_name b → a = b.
Proof.
  unfold get_archive_name. intros Heq.
  assert (a +:+ ".tar.gz" = b +:+ ".tar.gz") as Heq'.
  { rewrite !append_cons, !append_nil in Heq. congruence. }
  by apply append_inj_l in Heq'.
Qed.

(** What one pass of the loop body may do: it prints, works on the
    archive of its subdirectory and assigns, if at all, the stamp of its
    subdirectory after closing the archive; after an exception the
    history is as before. *)
Lemma try_archive_frame w sub_dir tree h :
  let a := get_archive_name sub_dir in
  let r := try_archive w sub_dir tree a h in
  only_archive a (trace r)
  ∧ ((final r = h ∧ TarClose a ∉ trace r)
     ∨ (final r = <[sub_dir := int_of_float (time_time w sub_dir)]> h
        ∧ result r = Ret tt ∧ TarClose a ∈ trace r))
  ∧ (∀ ex, result r = Raise ex → final r = h).
Proof.
  cbv zeta.
  destruct (try_archive_shape w sub_dir tree (get_archive_name sub_dir) h)
    as (out & Hout & Hcases).
  assert (TarClose (get_archive_name sub_dir) ∉ out) as Hnc.
  { intros Hin. rewrite forallb_forall in Hout.
    apply list_elem_of_In, Hout in Hin. done. }
  destruct Hcases as [(e & -> & _)|[(_ & _ & ->)|(_ & _ & ->)]];
    cbn [trace final result fst snd].
  - split; [by apply only_archive_prints|]. split; [by left|done].
  - split; [by apply only_archive_prints|]. split; [by left|done].
  - pose proof (create_archive_cases w sub_dir (get_archive_name sub_dir) h) as Hc.
    cbv zeta in Hc.
    assert (∀ t, Forall (λ ev, archive_of ev = Some (get_archive_name sub_dir)) t →
                 only_archive (get_archive_name sub_dir) (out ++ t)) as Hoa.
    { intros t Ht. apply Forall_app. split; [by apply only_archive_prints|].
      eapply Forall_impl; [done|]. by right. }
    destruct (tar_fault w (get_archive_name sub_dir)) as [[[] ex]|];
      rewrite Hc; cbn [trace final result fst snd].
    + split; [apply Hoa; constructor|]. split; [|done]. left. split; [done|].
      by rewrite app_nil_r.
    + split; [apply Hoa; by repeat constructor|]. split; [|done].
      left. split; [done|]. rewrite not_elem_of_app. split; [done|].
      by rewrite list_elem_of_singleton.
    + split; [apply Hoa; by repeat constructor|]. split; [|done].
      left. split; [done|]. rewrite not_elem_of_app. split; [done|].
      rewrite !not_elem_of_cons. repeat split; try done. apply not_elem_of_nil.
    + split; [apply Hoa; by repeat constructor|]. split; [|done].
      right. repeat split. rewrite elem_of_app. right.
      rewrite !elem_of_cons. by right; right; left.
Qed.

(** The loop leaves alone what belongs to a subdirectory it does not go
    through, and writes no history file. *)
Lemma update_loop_other w sub_dirs name h :
  name ∉ fst <$> sub_dirs →
  let r := update_loop w sub_dirs h in
  final r !! name = h !! name
  ∧ Forall (λ ev, archive_of ev ≠ Some (get_archive_name name)
                  ∧ is_write ev = false) (trace r).
Proof.
  revert h. induction sub_dirs as [|[sub_dir tree] rest IH]; intros h Hn.
  - by split; [|constructor].
  - cbn [fmap list_fmap fst] in Hn. apply not_elem_of_cons in Hn as [Hne Hn].
    cbv zeta. cbn [update_loop]. unfold bind. rewrite update_step_eq. cbv zeta.
    pose proof (try_archive_frame w sub_dir tree h) as (Hoa & Hfin & _).
    cbv zeta in Hoa, Hfin.
    set (r := try_archive w sub_dir tree (get_archive_name sub_dir) h) in *.
    assert (final r !! name = h !! name) as Hframe.
    { destruct Hfin as [[-> _]|(-> & _)]; [done|]. by rewrite lookup_insert_ne. }
    assert (Forall (λ ev, archive_of ev ≠ Some (get_archive_name name)
                          ∧ is_write ev = false) (trace r)) as Htr.
    { eapply Forall_impl; [exact Hoa|]. intros ev [Hp|Ha].
      - by destruct ev.
      - split; [|by destruct ev]. rewrite Ha. intros Heq.
        apply (f_equal (default "")) in Heq. cbn [from_option id] in Heq.
        by apply get_archive_name_inj in Heq. }
    destruct (result r).
    + destruct (IH (final r) Hn) as [Hf' Ht']. cbv zeta in Hf', Ht'.
      destruct (update_loop w rest (final r)) as [[t2 h2] r2].
      cbn [trace final result fst snd] in *. split; [congruence|].
      by apply Forall_app.
    + split; [exact Hframe|].
      unfold ret. cbn [trace fst]. rewrite app_nil_r.
      apply Forall_app_2; [exact Htr|]. by repeat constructor.
Qed.

(** ** Loading the history *)

Lemma is_empty_spec s : is_empty s = true ↔ s = "".
Proof. unfold is_empty. apply String.eqb_eq. Qed.

Lemma is_empty_false s : is_empty s = false ↔ s ≠ "".
Proof. unfold is_empty. apply String.eqb_neq. Qed.

Lemma parse_dir_node_good n h :
  good_directory n →
  ∃ name t, parse_dir_node n h = ([], <[name := timegm t]> h, Ret tt)
            ∧ name ≠ ""
            ∧ match n with
              | Xml.Element _ attributes _ =>
                  name = attribute attributes "name"
                  ∧ strptime (attribute attributes "lastArchivized") = Some t
              | Xml.Other _ => False
              end.
Proof.
  destruct n as [tag attributes children|]; [|done].
  intros [Hname [t Ht]]. exists (attribute attributes "name"), t.
  unfold parse_dir_node, get_last_archivized, bind, getAttribute, ret,
    assert_dir_name, assert_last_archivized, set_item.
  fold (attribute attributes "name") (attribute attributes "lastArchivized").
  rewrite (proj2 (is_empty_false _) Hname).
  assert (attribute attributes "lastArchivized" ≠ "") as Hv.
  { intros Heq. by rewrite Heq in Ht. }
  rewrite (proj2 (is_empty_false _) Hv). cbn. by rewrite Ht.
Qed.

Lemma not_good_directory n :
  ¬ good_directory n ↔ bad_directory n ∨ ∃ nodeName, n = Xml.Other nodeName.
Proof.
  destruct n as [tag attributes children|nodeName]; cbn.
  - split.
    + intros Hng. left.
      destruct (decide (attribute attributes "name" = "")); [by left|].
      right. right.
      destruct (strptime (attribute attributes "lastArchivized")) eqn:E;
        [|done].
      destruct Hng. by split.
    + intros [[Hn|[Hv|Hv]]|[? [=]]] [Hname [t Ht]]; [done| |congruence].
      by rewrite Hv in Ht.
  - split; [by right; eexists|tauto].
Qed.

Lemma parse_dir_node_bad n h :
  ¬ good_directory n →
  ∃ ex, parse_dir_node n h = ([], h, Raise ex)
        ∧ ((bad_directory n ∧ ∃ msg, ex = ExcInvalidFormat msg)
           ∨ ((∃ nodeName, n = Xml.Other nodeName) ∧ ∃ msg, ex = AttributeError msg)).
Proof.
  intros Hng. destruct n as [tag attributes children|nodeName].
  - pose proof (proj1 (not_good_directory _) Hng) as [Hbad|[? [=]]].
    unfold parse_dir_node, get_last_archivized, bind, getAttribute, ret,
      assert_dir_name, assert_last_archivized, set_item, raise.
    fold (attribute attributes "name") (attribute attributes "lastArchivized").
    destruct (is_empty (attribute attributes "name")) eqn:E1.
    { eexists. split; [done|]. left. split; [done|]. by eexists. }
    destruct (is_empty (attribute attributes "lastArchivized")) eqn:E2.
    { eexists. split; [done|]. left. split; [done|]. by eexists. }
    destruct (strptime (attribute attributes "lastArchivized")) eqn:E3.
    { exfalso. apply Hng. split; [by apply is_empty_false|by eexists]. }
    eexists. split; [by cbn|]. left. split; [done|]. by eexists.
  - eexists. split; [done|]. right. split; by eexists.
Qed.

(** The loop over the directory nodes: it stops at the first node that
    is not good, with the exception that node gives. *)
Lemma for_each_parse_good nodes h :
  Forall good_directory nodes →
  ∃ h', for_each nodes parse_dir_node h = ([], h', Ret tt).
Proof.
  revert h. induction nodes as [|n nodes IH]; intros h Hall; [by eexists|].
  apply Forall_cons in Hall as [Hn Hall].
  destruct (parse_dir_node_good n h Hn) as (name & t & Hp & _).
  cbn [for_each]. unfold bind. rewrite Hp.
  destruct (IH (<[name := timegm t]> h) Hall) as [h' ->]. by exists h'.
Qed.

Lemma for_each_parse_bad pre n post h :
  Forall good_directory pre → ¬ good_directory n →
  ∃ h' ex, for_each (pre ++ n :: post) parse_dir_node h = ([], h', Raise ex)
           ∧ ((bad_directory n ∧ ∃ msg, ex = ExcInvalidFormat msg)
              ∨ ((∃ nodeName, n = Xml.Other nodeName)
                 ∧ ∃ msg, ex = AttributeError msg)).
Proof.
  revert h. induction pre as [|p pre IH]; intros h Hall Hn.
  - destruct (parse_dir_node_bad n h Hn) as (ex & Hp & Hex).
    exists h, ex. cbn [app for_each]. unfold bind. by rewrite Hp.
  - apply Forall_cons in Hall as [Hp Hall].
    destruct (parse_dir_node_good p h Hp) as (name & t & Hpp & _).
    cbn [app for_each]. unfold bind. rewrite Hpp.
    destruct (IH (<[name := timegm t]> h) Hall Hn) as (h' & ex & -> & Hex).
    by exists h', ex.
Qed.

Lemma first_not_good nodes :
  Forall good_directory nodes
  ∨ ∃ pre n post, nodes = pre ++ n :: post
                  ∧ Forall good_directory pre ∧ ¬ good_directory n.
Proof.
  induction nodes as [|n nodes IH]; [by left|].
  destruct (decide (good_directory n)) as [Hn|Hn].
  - destruct IH as [Hall|(pre & m & post & -> & Hpre & Hm)].
    + left. by constructor.
    + right. exists (n :: pre), m, post. repeat split; [|done]. by constructor.
  - right. by exists [], n, nodes.
Qed.

Lemma get_dir_nodes_cases w h :
  get_dir_nodes w h
  = match metadata w with
    | Xml.Absent =>
        ([], h, Raise (IOError "No such file or directory: 'archive-history.xml'"))
    | Xml.Unreadable strerror => ([], h, Raise (IOError strerror))
    | Xml.IllFormed msg => ([], h, Raise (ExpatError msg))
    | Xml.WellFormed d =>
        if negb (length (Xml.document_childNodes d) =? 1)%nat
        then ([], h, Raise (ExcInvalidFormat
                              "Invalid root elements <archive> in metadata file"))
        else if is_empty (attribute (Xml.root_attributes d) "version")
        then ([], h, Raise (ExcInvalidFormat
                              "Lack of version attribute in metadata file"))
        else ([], h, Ret (dir_nodes_of d))
    end.
Proof.
  unfold get_dir_nodes, minidom_parse, bind.
  destruct (metadata w) as [| | |d]; try done.
  unfold ret, assert_root_elements.
  destruct d as [prolog tag attrs children epilog].
  unfold Xml.document_childNodes, Xml.documentElement. cbn [Xml.prolog Xml.epilog
    Xml.root_tag Xml.root_attributes Xml.root_childNodes].
  destruct prolog as [|p prolog]; cbn [fmap list_fmap app].
  - destruct epilog as [|e epilog]; cbn [fmap list_fmap length Nat.eqb negb raise].
    + unfold getAttribute, assert_version, ret, raise. fold (attribute attrs "version").
      by destruct (is_empty (attribute attrs "version")).
    + done.
  - destruct (negb _) eqn:E; [done|]. exfalso.
    apply negb_false_iff, Nat.eqb_eq in E. cbn in E.
    rewrite length_app in E. cbn in E. lia.
Qed.

(** How the loading ends, by how the body of its [try] ends: an
    [IOError] is passed over, an [ExpatError] becomes a format error,
    anything else goes through. *)
Lemma parse_archive_history_eq w h :
  parse_archive_history w h
  = match result (history_nodes w ∅) with
    | Ret _ => ([], final (history_nodes w ∅), Ret tt)
    | Raise (IOError _) => ([], final (history_nodes w ∅), Ret tt)
    | Raise (ExpatError msg) =>
        ([], final (history_nodes w ∅),
         Raise (ExcInvalidFormat ("Invalid format archive-history.xml - " +:+ msg)))
    | Raise ex => ([], final (history_nodes w ∅), Raise ex)
    end
  ∧ trace (history_nodes w ∅) = [].
Proof.
  unfold parse_archive_history. fold (history_nodes w).
  unfold bind, new_dict, try_except.
  assert (trace (history_nodes w ∅) = []) as Ht.
  { unfold history_nodes, bind. rewrite get_dir_nodes_cases.
    destruct (metadata w) as [| | |d]; try done.
    destruct (negb _); [done|]. destruct (is_empty _); [done|].
    destruct (first_not_good (dir_nodes_of d))
      as [Hall|(pre & n & post & -> & Hpre & Hn)].
    - by destruct (for_each_parse_good _ ∅ Hall) as [h' ->].
    - by destruct (for_each_parse_bad pre n post ∅ Hpre Hn) as (h' & ex & -> & _). }
  split; [|done].
  destruct (history_nodes w ∅) as [[t1 h1] [[]|ex]]; cbn in Ht; subst t1;
    [done|]. by destruct ex.
Qed.

Lemma parse_archive_history_trace w h : trace (parse_archive_history w h) = [].
Proof.
  rewrite (proj1 (parse_archive_history_eq w h)).
  destruct (result (history_nodes w ∅)) as [|[]]; done.
Qed.

Lemma history_nodes_absent w :
  match metadata w with
  | Xml.Absent | Xml.Unreadable _ =>
      ∃ msg, history_nodes w ∅ = ([], ∅, Raise (IOError msg))
  | Xml.IllFormed msg => history_nodes w ∅ = ([], ∅, Raise (ExpatError msg))
  | Xml.WellFormed _ => True
  end.
Proof.
  unfold history_nodes, bind. rewrite get_dir_nodes_cases.
  destruct (metadata w); try done; by eexists.
Qed.

(** C3, as the code has it. [load()] raises [InvalidFormatError] exactly
    when the metadata file can be read and either is not well-formed XML,
    or the document has more nodes at its top than the root element (a
    comment, a processing instruction or a document type beside it), or
    the [version] attribute of the root is missing or empty, or the first
    [directory] child of the root that is not an element with a
    non-empty [name] and a [lastArchivized] that [strptime] reads is an
    element: one whose [name] is missing or empty, or whose
    [lastArchivized] is missing, empty or not in the format. When the
    file is absent, or cannot be opened, [load()] raises nothing and
    returns an empty history. *)
Theorem load_format_error_iff w h :
  ((∃ msg, result (parse_archive_history w h) = Raise (ExcInvalidFormat msg))
   ↔ match metadata w with
     | Xml.Absent | Xml.Unreadable _ => False
     | Xml.IllFormed _ => True
     | Xml.WellFormed d =>
         length (Xml.document_childNodes d) ≠ 1%nat
         ∨ attribute (Xml.root_attributes d) "version" = ""
         ∨ ∃ pre n post, dir_nodes_of d = pre ++ n :: post
                         ∧ Forall good_directory pre ∧ bad_directory n
     end)
  ∧ match metadata w with
    | Xml.Absent | Xml.Unreadable _ =>
        parse_archive_history w h = ([], ∅, Ret tt)
    | _ => True
    end.
Proof.
  rewrite (proj1 (parse_archive_history_eq w h)).
  pose proof (history_nodes_absent w) as Habs.
  destruct (metadata w) as [|strerror|msg|d] eqn:Hmeta.
  - destruct Habs as [msg ->]. cbn. split; [|done]. split; [|done].
    by intros [? [=]].
  - destruct Habs as [msg ->]. cbn. split; [|done]. split; [|done].
    by intros [? [=]].
  - rewrite Habs. cbn. split; [|done]. split; [done|]. intros _. by eexists.
  - clear Habs. split; [|done].
    unfold history_nodes, bind. rewrite get_dir_nodes_cases, Hmeta.
    destruct (negb _) eqn:Elen.
    { cbn. split; [intros _; left|intros _; by eexists].
      apply negb_true_iff, Nat.eqb_neq in Elen. done. }
    apply negb_false_iff, Nat.eqb_eq in Elen.
    destruct (is_empty _) eqn:Ever.
    { cbn. split; [intros _; right; left; by apply is_empty_spec
                  |intros _; by eexists]. }
    apply is_empty_false in Ever.
    destruct (first_not_good (dir_nodes_of d))
      as [Hall|(pre & n & post & Hsplit & Hpre & Hn)].
    + destruct (for_each_parse_good _ ∅ Hall) as [h' ->]. cbn.
      split; [by intros [? [=]]|].
      intros [Hlen|[Hver|(pre & n & post & Hsplit & Hpre & Hbad)]]; [done..|].
      exfalso. rewrite Hsplit in Hall.
      apply Forall_app in Hall as [_ Hall]. apply Forall_cons in Hall as [Hn _].
      apply (proj2 (not_good_directory n)); [by left|done].
    + rewrite Hsplit.
      destruct (for_each_parse_bad pre n post ∅ Hpre Hn)
        as (h' & ex & -> & [[Hbad [msg ->]]|[[nodeName ->] [msg ->]]]); cbn.
      * split; [intros _|intros _; by eexists].
        right. right. by exists pre, n, post.
      * split; [by intros [? [=]]|].
        intros [Hlen|[Hver|(pre' & n' & post' & Hsplit' & Hpre' & Hbad')]];
          [done..|].
        exfalso.
        assert (¬ good_directory n') as Hn'
          by (apply not_good_directory; by left).
        assert (Xml.Other nodeName = n') as <-; [|done].
        clear -Hsplit' Hpre Hpre' Hn Hn'.
        revert pre' Hsplit' Hpre'.
        induction pre as [|p pre IH]; intros [|p' pre'] Heq Hpre'.
        -- by injection Heq.
        -- injection Heq as <- _. apply Forall_cons in Hpre' as [Hp' _]. done.
        -- injection Heq as -> _. apply Forall_cons in Hpre as [Hp _]. done.
        -- injection Heq as <- Heq. apply Forall_cons in Hpre as [_ Hpre].
           apply Forall_cons in Hpre' as [_ Hpre']. by apply (IH Hpre pre').
Qed.

(** C6. When loading raises a format error the run ends with that error
    and has done nothing: nothing is printed, no archive is opened, the
    metadata file is not written. *)
Theorem format_error_stops_the_run w msg :
  result (parse_archive_history w ∅) = Raise (ExcInvalidFormat msg) →
  trace (run w) = [] ∧ result (run w) = Raise (ExcInvalidFormat msg).
Proof.
  intros Hr. unfold run, main, bind.
  pose proof (parse_archive_history_trace w ∅) as Ht.
  destruct (parse_archive_history w ∅) as [[t1 h1] r1].
  cbn in Hr, Ht. by subst.
Qed.

(** Every time in a loaded history was read by [strptime]. *)
Lemma for_each_parse_values nodes h :
  ∀ name v, final (for_each nodes parse_dir_node h) !! name = Some v →
    h !! name = Some v ∨ ∃ s t, strptime s = Some t ∧ v = timegm t.
Proof.
  revert h. induction nodes as [|n nodes IH]; intros h name v; [by left|].
  cbn [for_each]. unfold bind.
  destruct (decide (good_directory n)) as [Hn|Hn].
  - destruct (parse_dir_node_good n h Hn) as (name' & t & -> & _ & Hattr).
    destruct n as [tag attributes children|]; [|done].
    destruct Hattr as [_ Ht].
    specialize (IH (<[name' := timegm t]> h) name v).
    destruct (for_each nodes parse_dir_node _) as [[t2 h2] r2].
    cbn [final fst snd] in *. intros Hl. destruct (IH Hl) as [Hin|Hex]; [|by right].
    apply lookup_insert_Some in Hin as [[-> <-]|[_ Hin]]; [|by left].
    right. by eexists _, t.
  - destruct (parse_dir_node_bad n h Hn) as (ex & -> & _). by left.
Qed.

Lemma loaded_values w h name v :
  final (parse_archive_history w h) !! name = Some v →
  ∃ s t, strptime s = Some t ∧ v = timegm t.
Proof.
  rewrite (proj1 (parse_archive_history_eq w h)).
  assert (final (history_nodes w ∅) !! name = Some v →
          ∃ s t, strptime s = Some t ∧ v = timegm t) as Hn.
  { unfold history_nodes, bind. rewrite get_dir_nodes_cases.
    destruct (metadata w) as [| | |d]; try done.
    destruct (negb _); [done|]. destruct (is_empty _); [done|].
    pose proof (for_each_parse_values (dir_nodes_of d) ∅ name v) as Hv.
    destruct (for_each _ parse_dir_node ∅) as [[t2 h2] r2].
    cbn [final fst snd] in *. intros Hl. by destruct (Hv Hl). }
  by destruct (result (history_nodes w ∅)) as [|[]].
Qed.

(** The watermark of a loaded history can be printed. *)
Lemma loaded_printable w h name :
  let h0 := final (parse_archive_history w h) in
  0 ≤ watermark h0 name → printable (watermark h0 name).
Proof.
  cbv zeta. unfold watermark.
  destruct (final (parse_archive_history w h) !! name) as [v|] eqn:Hv; [|lia].
  apply loaded_values in Hv as (s & t & Hs & ->).
  intros Hpos. by apply (strptime_printable s).
Qed.

(** ** Saving the history *)

Lemma sec_to_str_time_text secnum h :
  printable secnum → sec_to_str_time secnum h = ([], h, Ret (time_text secnum)).
Proof.
  intros [text Ht]. unfold sec_to_str_time, time_text. rewrite Ht.
  destruct (gmtime secnum) as [t|]; cbn in Ht; [|done]. by rewrite Ht.
Qed.

Lemma create_dir_tags_printable items h :
  Forall (λ item, printable item.2) items →
  create_dir_tags items h = ([], h, Ret (dir_tag_of <$> items)).
Proof.
  induction items as [|[name v] items IH]; [done|]. intros Hall.
  apply Forall_cons in Hall as [Hv Hall].
  cbn [create_dir_tags]. unfold create_dir_tag, bind.
  rewrite sec_to_str_time_text by done. cbn [ret]. by rewrite IH.
Qed.

Lemma create_dir_tags_pure items h :
  trace (create_dir_tags items h) = [] ∧ final (create_dir_tags items h) = h.
Proof.
  induction items as [|[name v] items IH]; [done|].
  cbn [create_dir_tags]. unfold create_dir_tag, bind.
  pose proof (sec_to_str_time_pure v h) as [Ht Hf].
  destruct (sec_to_str_time v h) as [[t1 h1] [text|e]]; cbn in Ht, Hf; subst;
    [|done].
  cbn [ret]. destruct IH as [Ht Hf].
  by destruct (create_dir_tags items h) as [[t2 h2] [tags|e]]; cbn in *; subst.
Qed.

(** [save_history] leaves the history as it is and writes the file at
    most once, at its end. *)
Lemma save_history_frame w h :
  final (save_history w h) = h
  ∧ (trace (save_history w h) = []
     ∨ ∃ d, save_history w h = ([WriteHistory d], h, Ret tt)).
Proof.
  unfold save_history, bind, get_history.
  pose proof (create_dir_tags_pure (map_to_list h) h) as [Ht Hf].
  destruct (create_dir_tags (map_to_list h) h) as [[t1 h1] [tags|e]];
    cbn in Ht, Hf; subst; [|by split; [|left]].
  destruct (save_fault w); [by split; [|left]|].
  split; [done|]. right. by eexists.
Qed.

Lemma save_history_printable w h :
  save_fault w = None →
  (∀ name t, h !! name = Some t → printable t) →
  save_history w h = ([WriteHistory (document_of h)], h, Ret tt).
Proof.
  intros Hfault Hp. unfold save_history, bind, get_history.
  rewrite create_dir_tags_printable, Hfault; [done|].
  apply Forall_forall. intros [name t] Hin.
  apply elem_of_map_to_list in Hin. by apply (Hp name).
Qed.

(** ** Saving and loading again *)

Lemma pretty_dir_nodes items :
  filter (λ node, Xml.nodeName node = "directory")
         (Xml.pretty_childNodes (dir_tag_of <$> items))
  = dir_tag_of <$> items.
Proof.
  assert (∀ l, filter (λ node, Xml.nodeName node = "directory")
                 (flat_map (λ c, [c; Xml.Other "#text"]) (dir_tag_of <$> l))
               = dir_tag_of <$> l) as Hflat.
  { induction l as [|it l IH]; [done|]. cbn [fmap list_fmap flat_map app].
    rewrite filter_cons_True by done. rewrite filter_cons_False by done.
    by rewrite IH. }
  destruct items as [|it items]; [done|].
  unfold Xml.pretty_childNodes. cbn [fmap list_fmap].
  rewrite filter_cons_False by done. apply (Hflat (it :: items)).
Qed.

Lemma parse_dir_tag name v h :
  name ≠ "" → T1900 ≤ v < T10000 →
  parse_dir_node (dir_tag_of (name, v)) h = ([], <[name := v]> h, Ret tt).
Proof.
  intros Hname Hv.
  destruct (time_round_trip v Hv) as (text & Htext & Hback).
  destruct (strptime text) as [t|] eqn:Ht; [|done]. injection Hback as Hback.
  assert (good_directory (dir_tag_of (name, v))) as Hgood.
  { unfold good_directory, dir_tag_of, attribute, time_text. cbn [fst snd].
    rewrite lookup_insert_ne, lookup_insert_eq by done.
    rewrite lookup_insert_eq, Htext. cbn [from_option id]. split; [done|].
    by rewrite Ht. }
  destruct (parse_dir_node_good _ h Hgood) as (name' & t' & -> & _ & Hn & Ht').
  unfold dir_tag_of, attribute, time_text in Hn, Ht'. cbn [fst snd] in Hn, Ht'.
  rewrite lookup_insert_ne, lookup_insert_eq in Hn by done.
  rewrite lookup_insert_eq, Htext in Ht'. cbn [from_option id] in Hn, Ht'.
  rewrite Ht in Ht'. injection Ht' as <-. by subst.
Qed.

Lemma for_each_parse_tags items h :
  Forall (λ item, item.1 ≠ "" ∧ T1900 ≤ item.2 < T10000) items →
  for_each (dir_tag_of <$> items) parse_dir_node h
  = ([], foldl assign h items, Ret tt).
Proof.
  revert h. induction items as [|[name v] items IH]; intros h Hall; [done|].
  apply Forall_cons in Hall as [[Hname Hv] Hall].
  cbn [fmap list_fmap for_each foldl]. unfold bind.
  rewrite parse_dir_tag by done. by rewrite IH.
Qed.

Lemma foldl_assign_list_to_map (items : list (string * Z)) (h : gmap string Z) :
  NoDup (fst <$> items) → foldl assign h items = list_to_map items ∪ h.
Proof.
  revert h. induction items as [|[name v] items IH]; intros h Hnd.
  - cbn. by rewrite (left_id_L ∅ (∪)).
  - cbn [fmap list_fmap fst] in Hnd. apply NoDup_cons in Hnd as [Hn Hnd].
    cbn [foldl]. rewrite IH by done. unfold assign. cbn [fst snd].
    rewrite list_to_map_cons, <- insert_union_l. symmetry.
    apply insert_union_r. by apply not_elem_of_list_to_map_1.
Qed.

Lemma foldl_assign_map_to_list (h : gmap string Z) :
  foldl assign ∅ (map_to_list h) = h.
Proof.
  rewrite foldl_assign_list_to_map by apply NoDup_fst_map_to_list.
  by rewrite list_to_map_to_list, (right_id_L ∅ (∪)).
Qed.


(** ** A whole run *)

(** A run is the loading, then, unless the loading raised, the loop and
    the saving of what the loop left. *)
Lemma run_eq w :
  run w
  = match result (parse_archive_history w ∅) with
    | Raise ex => ([], loaded w, Raise ex)
    | Ret _ =>
        let u := update_loop w (listing w) (loaded w) in
        let s := save_history w (final u) in
        (trace u ++ trace s, final u, result s)
    end.
Proof.
  unfold run, main, update_archives, get_sub_dirs, loaded, bind.
  pose proof (parse_archive_history_trace w ∅) as Ht.
  destruct (parse_archive_history w ∅) as [[t1 h1] [[]|ex]];
    cbn [trace final result fst snd] in *; subst t1; [|done].
  destruct (update_loop_total w (listing w) h1) as [go_on Hgo].
  destruct (update_loop w (listing w) h1) as [[t2 h2] r2].
  cbn [trace final result fst snd] in *. subst r2. cbn [ret].
  pose proof (save_history_frame w h2) as [Hf _].
  destruct (save_history w h2) as [[t3 h3] r3].
  cbn [trace final result fst snd app] in *. subst h3.
  by rewrite app_nil_r.
Qed.

Lemma not_newer_first_hit sub_dir tree h :
  wf_tree tree = true →
  (¬ ∃ m, m ∈ inspected tree ∧ newer_than (watermark h sub_dir) m) →
  first_hit sub_dir tree h = None.
Proof.
  intros Hwf Hno. unfold first_hit. rewrite walk_inspected by done.
  by apply find_newer_None.
Qed.

(** A subdirectory with nothing newer than its watermark: [try_archive]
    prints and does nothing else. *)
Lemma try_archive_unmodified w sub_dir tree archive_name h :
  wf_tree tree = true →
  (¬ ∃ m, m ∈ inspected tree ∧ newer_than (watermark h sub_dir) m) →
  let r := try_archive w sub_dir tree archive_name h in
  final r = h ∧ forallb is_print (trace r) = true.
Proof.
  intros Hwf Hno.
  pose proof (not_newer_first_hit sub_dir tree h Hwf Hno) as Hhit.
  destruct (try_archive_shape w sub_dir tree archive_name h)
    as (out & Hout & [(e & -> & _)|[(_ & _ & ->)|(_ & Ht & _)]]); [done..|].
  by rewrite Hhit in Ht.
Qed.

Lemma watermark_lookup h h' name :
  h' !! name = h !! name → watermark h' name = watermark h name.
Proof. unfold watermark. by intros ->. Qed.

Lemma update_loop_unmodified w sub_dirs name tree h :
  NoDup (fst <$> sub_dirs) → (name, tree) ∈ sub_dirs →
  wf_tree tree = true →
  (¬ ∃ m, m ∈ inspected tree ∧ newer_than (watermark h name) m) →
  let r := update_loop w sub_dirs h in
  final r !! name = h !! name
  ∧ Forall (λ ev, archive_of ev ≠ Some (get_archive_name name)
                  ∧ is_write ev = false) (trace r).
Proof.
  intros Hnd Hin Hwf. revert h.
  induction sub_dirs as [|[sub_dir t] rest IH]; intros h Hno;
    [by apply elem_of_nil in Hin|].
  cbn [fmap list_fmap fst] in Hnd. apply NoDup_cons in Hnd as [Hfresh Hnd].
  cbv zeta. cbn [update_loop]. unfold bind. rewrite update_step_eq. cbv zeta.
  apply elem_of_cons in Hin as [[= <- <-]|Hin].
  - (* the subdirectory itself *)
    pose proof (try_archive_unmodified w name tree (get_archive_name name) h
                  Hwf Hno) as [Hf Hp]. cbv zeta in Hf, Hp.
    set (r := try_archive w name tree (get_archive_name name) h) in *.
    assert (Forall (λ ev, archive_of ev ≠ Some (get_archive_name name)
                          ∧ is_write ev = false) (trace r)) as Htr.
    { apply Forall_forall. intros ev Hev. rewrite forallb_forall in Hp.
      apply list_elem_of_In, Hp in Hev. by destruct ev. }
    destruct (result r).
    + pose proof (update_loop_other w rest name (final r) Hfresh) as [Hf' Ht'].
      cbv zeta in Hf', Ht'.
      destruct (update_loop w rest (final r)) as [[t2 h2] r2].
      cbn [trace final result fst snd] in *. split; [congruence|].
      by apply Forall_app_2.
    + unfold ret. cbn [trace final fst snd]. rewrite app_nil_r.
      split; [by rewrite Hf|]. apply Forall_app_2; [done|].
      by repeat constructor.
  - (* another one before it *)
    assert (name ≠ sub_dir) as Hne.
    { intros ->. apply Hfresh. apply list_elem_of_fmap. by exists (sub_dir, tree). }
    pose proof (update_loop_other w [(sub_dir, t)] name h) as Hother.
    cbn [update_loop] in Hother. unfold bind in Hother.
    rewrite update_step_eq in Hother. cbv zeta in Hother.
    set (r := try_archive w sub_dir t (get_archive_name sub_dir) h) in *.
    assert (final r !! name = h !! name
            ∧ Forall (λ ev, archive_of ev ≠ Some (get_archive_name name)
                            ∧ is_write ev = false) (trace r)) as [Hf Htr].
    { pose proof (try_archive_frame w sub_dir t h) as (Hoa & Hfin & _).
      cbv zeta in Hoa, Hfin. fold r in Hoa, Hfin. split.
      - destruct Hfin as [[-> _]|(-> & _)]; [done|]. by rewrite lookup_insert_ne.
      - eapply Forall_impl; [exact Hoa|]. intros ev [Hp|Ha]; [by destruct ev|].
        split; [|by destruct ev]. rewrite Ha. intros Heq.
        apply (f_equal (default "")) in Heq. cbn [from_option id] in Heq.
        by apply get_archive_name_inj in Heq. }
    clear Hother. destruct (result r).
    + assert (¬ ∃ m, m ∈ inspected tree ∧ newer_than (watermark (final r) name) m)
        as Hno' by (by rewrite (watermark_lookup _ _ _ Hf)).
      destruct (IH Hnd Hin (final r) Hno') as [Hf' Ht']. cbv zeta in Hf', Ht'.
      destruct (update_loop w rest (final r)) as [[t2 h2] r2].
      cbn [trace final result fst snd] in *. split; [congruence|].
      by apply Forall_app_2.
    + unfold ret. cbn [trace final fst snd]. rewrite app_nil_r.
      split; [done|]. apply Forall_app_2; [done|]. by repeat constructor.
Qed.

(** C7. In a run over subdirectories of distinct names, a subdirectory
    in whose tree no inspected entry is newer than its watermark gets no
    archive: the run has no [tarfile] event for its archive name, and its
    entry of the history is after the run what the loading found. While
    it is processed no entry of the history changes, and nothing but
    printing happens. *)
Theorem unmodified_is_left_alone w name tree :
  NoDup (fst <$> listing w) →
  (name, tree) ∈ listing w →
  wf_tree tree = true →
  (¬ ∃ m, m ∈ inspected tree ∧ newer_than (watermark (loaded w) name) m) →
  Forall (λ ev, archive_of ev ≠ Some (get_archive_name name)) (trace (run w))
  ∧ final (run w) !! name = loaded w !! name
  ∧ ∀ h, (¬ ∃ m, m ∈ inspected tree ∧ newer_than (watermark h name) m) →
         let r := try_archive w name tree (get_archive_name name) h in
         final r = h ∧ forallb is_print (trace r) = true.
Proof.
  intros Hnd Hin Hwf Hno. split; [|split].
  - rewrite run_eq. destruct (result (parse_archive_history w ∅)); [|constructor].
    cbv zeta. cbn [trace fst].
    pose proof (update_loop_unmodified w (listing w) name tree (loaded w)
                  Hnd Hin Hwf Hno) as [_ Htr]. cbv zeta in Htr.
    apply Forall_app_2.
    + eapply Forall_impl; [exact Htr|]. by intros ev [? _].
    + destruct (save_history_frame w (final (update_loop w (listing w) (loaded w))))
        as [_ [->|[d ->]]]; [constructor|]. by repeat constructor.
  - rewrite run_eq. destruct (result (parse_archive_history w ∅)); [|done].
    cbv zeta. cbn [final fst snd].
    by apply (update_loop_unmodified w (listing w) name tree (loaded w)).
  - intros h Hh. by apply try_archive_unmodified.
Qed.

Lemma div_le_cross a b c d :
  0 < b → 0 < d → a * d ≤ c * b → a `div` b ≤ c `div` d.
Proof.
  intros Hb Hd Hle. apply Z.div_le_lower_bound; [done|].
  pose proof (Z.mul_div_le a b Hb). nia.
Qed.

Lemma quot_le_cross p q r s :
  0 < q → 0 < s → p * s ≤ r * q → p `quot` q ≤ r `quot` s.
Proof.
  intros Hq Hs Hle.
  destruct (Z.le_gt_cases 0 p) as [Hp|Hp], (Z.le_gt_cases 0 r) as [Hr|Hr].
  - rewrite !Z.quot_div_nonneg by lia. by apply div_le_cross.
  - nia.
  - assert (∃ p', p = - p' ∧ 0 < p') as (p' & -> & Hp') by (exists (- p); lia).
    rewrite Z.quot_opp_l by lia. rewrite !Z.quot_div_nonneg by lia.
    pose proof (Z.div_pos p' q ltac:(lia) Hq).
    pose proof (Z.div_pos r s Hr Hs). lia.
  - assert (∃ p', p = - p' ∧ 0 < p') as (p' & -> & Hp') by (exists (- p); lia).
    assert (∃ r', r = - r' ∧ 0 < r') as (r' & -> & Hr') by (exists (- r); lia).
    rewrite !Z.quot_opp_l by lia. rewrite !Z.quot_div_nonneg by lia.
    apply (proj1 (Z.opp_le_mono _ _)). apply div_le_cross; lia.
Qed.

(** [int] does not turn the order of two floats around. *)
Lemma int_of_float_mono (a b : Qc) : (a ≤ b)%Qc → int_of_float a ≤ int_of_float b.
Proof.
  unfold int_of_float, Qcle, Qle. intros Hle. by apply quot_le_cross.
Qed.

(** One pass of the loop body that finds something newer, with nothing in
    its way: the archive is written and the subdirectory stamped. *)
Lemma try_archive_modified w sub_dir tree h :
  wf_tree tree = true →
  (0 ≤ watermark h sub_dir → printable (watermark h sub_dir)) →
  walk_fault w sub_dir = None →
  tar_fault w (get_archive_name sub_dir) = None →
  (∃ m, m ∈ inspected tree ∧ newer_than (watermark h sub_dir) m) →
  find (λ m, newer m (watermark h sub_dir)) (inspected tree) ≠ Some 0%Qc →
  let r := try_archive w sub_dir tree (get_archive_name sub_dir) h in
  result r = Ret tt
  ∧ final r = <[sub_dir := int_of_float (time_time w sub_dir)]> h
  ∧ TarClose (get_archive_name sub_dir) ∈ trace r.
Proof.
  intros Hwf Hp Hwalk Htar Hnewer Hnz. cbv zeta.
  assert (truthy (first_hit sub_dir tree h) = true) as Htruthy.
  { unfold first_hit. rewrite walk_inspected by done.
    destruct (find _ (inspected tree)) as [m|] eqn:Hf.
    - cbn. apply negb_true_iff, bool_decide_eq_false. congruence.
    - by apply find_newer_None in Hf. }
  destruct (try_archive_shape w sub_dir tree (get_archive_name sub_dir) h)
    as (out & Hout & [(e & _ & [[Hpos Hnp]|Hw])|[(_ & Ht & _)|(_ & _ & ->)]]).
  - destruct Hnp. by apply Hp.
  - congruence.
  - congruence.
  - pose proof (create_archive_cases w sub_dir (get_archive_name sub_dir) h) as Hc.
    cbv zeta in Hc. rewrite Htar in Hc. rewrite Hc.
    cbn [trace final result fst snd]. repeat split.
    rewrite elem_of_app. right. rewrite !elem_of_cons. by right; right; left.
Qed.

(** C1, as the code has it. In a run that loads its history and goes
    over subdirectories of distinct names, take a subdirectory that the
    loop reaches (every earlier one was processed without an exception),
    in whose tree an inspected entry is newer than the stored watermark,
    the first such entry not being dated exactly 0, and for which neither
    the walk nor [tarfile] raises. The run writes and closes the archive
    [z-backup-<name>.tar.gz], and afterwards the history maps the name to
    the clock read after the closing, cut to whole seconds; if the clock
    does not run backwards this is at least the starting time cut to
    whole seconds. *)
Theorem modified_is_archived w pre name tree post start :
  result (parse_archive_history w ∅) = Ret tt →
  listing w = pre ++ (name, tree) :: post →
  NoDup (fst <$> listing w) →
  result (update_loop w pre (loaded w)) = Ret true →
  wf_tree tree = true →
  walk_fault w name = None →
  tar_fault w (get_archive_name name) = None →
  (∃ m, m ∈ inspected tree ∧ newer_than (watermark (loaded w) name) m) →
  find (λ m, newer m (watermark (loaded w) name)) (inspected tree) ≠ Some 0%Qc →
  (start ≤ time_time w name)%Qc →
  get_archive_name name = "z-backup-" +:+ name +:+ ".tar.gz"
  ∧ TarClose (get_archive_name name) ∈ trace (run w)
  ∧ final (run w) !! name = Some (int_of_float (time_time w name))
  ∧ int_of_float start ≤ int_of_float (time_time w name).
Proof.
  intros Hload Hlist Hnd Hpre Hwf Hwalk Htar Hnewer Hnz Hstart.
  split; [done|]. rewrite run_eq, Hload. cbv zeta. cbn [trace final fst snd].
  rewrite Hlist in Hnd |- *. rewrite fmap_app in Hnd.
  apply NoDup_app in Hnd as (_ & Hpre_post & Hnd).
  cbn [fmap list_fmap fst] in Hnd, Hpre_post.
  apply NoDup_cons in Hnd as [Hpost _].
  assert (name ∉ fst <$> pre) as Hnpre.
  { intros Hin. apply (Hpre_post name Hin). by left. }
  rewrite update_loop_app. cbv zeta. rewrite Hpre.
  pose proof (update_loop_other w pre name (loaded w) Hnpre) as [Hf1 _].
  cbv zeta in Hf1.
  set (h1 := final (update_loop w pre (loaded w))) in *.
  cbn [update_loop]. unfold bind. rewrite update_step_eq. cbv zeta.
  pose proof (watermark_lookup _ _ _ Hf1) as Hwm.
  destruct (try_archive_modified w name tree h1) as (Hr & Hf & Hc);
    [done| |done|done|by rewrite Hwm|by rewrite Hwm|].
  { rewrite Hwm. apply loaded_printable. }
  rewrite Hr, Hf.
  pose proof (update_loop_other w post name
                (<[name := int_of_float (time_time w name)]> h1) Hpost)
    as [Hf2 _]. cbv zeta in Hf2.
  destruct (update_loop w post _) as [[t2 h2] r2].
  cbn [trace final result fst snd] in *.
  split; [|split].
  - rewrite !elem_of_app. left. right. by left.
  - by rewrite Hf2, lookup_insert_eq.
  - by apply int_of_float_mono.
Qed.

(** An archive the loop closed has its subdirectory stamped. *)
Lemma update_loop_closed w sub_dirs a h :
  NoDup (fst <$> sub_dirs) →
  TarClose (get_archive_name a) ∈ trace (update_loop w sub_dirs h) →
  final (update_loop w sub_dirs h) !! a = Some (int_of_float (time_time w a)).
Proof.
  revert h. induction sub_dirs as [|[sub_dir t] rest IH]; intros h Hnd Hin;
    [by apply elem_of_nil in Hin|].
  cbn [fmap list_fmap fst] in Hnd. apply NoDup_cons in Hnd as [Hfresh Hnd].
  revert Hin. cbn [update_loop]. unfold bind. rewrite update_step_eq. cbv zeta.
  pose proof (try_archive_frame w sub_dir t h) as (Hoa & Hfin & _).
  cbv zeta in Hoa, Hfin.
  set (r := try_archive w sub_dir t (get_archive_name sub_dir) h) in *.
  assert (TarClose (get_archive_name a) ∈ trace r →
          a = sub_dir
          ∧ final r = <[sub_dir := int_of_float (time_time w sub_dir)]> h
          ∧ result r = Ret tt) as Hhead.
  { intros Hin. unfold only_archive in Hoa. rewrite Forall_forall in Hoa.
    destruct (Hoa _ Hin) as [?|Ha]; [done|].
    apply (f_equal (default "")) in Ha. cbn [archive_of from_option id] in Ha.
    apply get_archive_name_inj in Ha as ->.
    destruct Hfin as [[_ Hn]|(? & ? & _)]; done. }
  destruct (result r) eqn:Hr.
  - specialize (IH (final r) Hnd).
    pose proof (update_loop_other w rest sub_dir (final r) Hfresh) as [Hf' _].
    cbv zeta in Hf'.
    destruct (update_loop w rest (final r)) as [[t2 h2] r2].
    cbn [trace final result fst snd] in *.
    intros Hin. apply elem_of_app in Hin as [Hin|Hin]; [|by apply IH].
    destruct (Hhead Hin) as (-> & Hf & _).
    by rewrite Hf', Hf, lookup_insert_eq.
  - unfold ret. cbn [trace final fst snd]. rewrite app_nil_r. intros Hin.
    apply elem_of_app in Hin as [Hin|Hin].
    + by destruct (Hhead Hin) as (_ & _ & [=]).
    + apply list_elem_of_singleton in Hin. done.
Qed.

Lemma elem_of_pretty_childNodes c children :
  c ∈ children → c ∈ Xml.pretty_childNodes children.
Proof.
  intros Hin. unfold Xml.pretty_childNodes.
  destruct children as [|c0 children]; [done|]. right.
  apply list_elem_of_In, in_flat_map. exists c.
  split; [by apply list_elem_of_In|by left].
Qed.

(** C5. In a run that loads its history and goes over subdirectories of
    distinct names, let everything before B be processed without an
    exception, the archive of A, which comes before B, be closed, and
    [try_archive] raise for B. Then the loop ends with the line it prints
    for B: no subdirectory after B is looked at, none gets a [tarfile]
    event. The history still maps A to its new stamp, and, when the
    times of the history can be written and the file can be opened, the
    run ends by writing the file of that history, with the [directory]
    element of A and its stamp in it. *)
Theorem failure_stops_loop_history_saved w before a ta between b tb after ex :
  result (parse_archive_history w ∅) = Ret tt →
  listing w = (before ++ (a, ta) :: between) ++ (b, tb) :: after →
  NoDup (fst <$> listing w) →
  let u := update_loop w (before ++ (a, ta) :: between) (loaded w) in
  let rb := try_archive w b tb (get_archive_name b) (final u) in
  result u = Ret true →
  TarClose (get_archive_name a) ∈ trace u →
  result rb = Raise ex →
  save_fault w = None →
  (∀ name t, final u !! name = Some t → printable t) →
  update_loop w (listing w) (loaded w)
  = (trace u ++ trace rb ++ [Print (error_line (get_archive_name b) ex)],
     final u, Ret false)
  ∧ Forall (λ c, Forall (λ ev, archive_of ev ≠ Some (get_archive_name c.1))
                   (trace (run w))) after
  ∧ final (run w) !! a = Some (int_of_float (time_time w a))
  ∧ trace (run w)
    = trace u ++ trace rb
      ++ [Print (error_line (get_archive_name b) ex);
          WriteHistory (document_of (final u))]
  ∧ dir_tag_of (a, int_of_float (time_time w a))
    ∈ Xml.root_childNodes (document_of (final u)).
Proof.
  intros Hload Hlist Hnd u rb Hu Ha Hb Hsave Hprint.
  rewrite Hlist in Hnd. rewrite fmap_app in Hnd.
  apply NoDup_app in Hnd as (Hnd1 & Hdisj & Hnd2).
  cbn [fmap list_fmap fst] in Hnd2, Hdisj.
  apply NoDup_cons in Hnd2 as [Hb_after Hnd_after].
  pose proof (try_archive_frame w b tb (final u)) as (Hoa & _ & Hraise).
  cbv zeta in Hoa, Hraise. fold rb in Hoa, Hraise.
  pose proof (Hraise ex Hb) as Hfb.
  assert (update_loop w (listing w) (loaded w)
          = (trace u ++ trace rb ++ [Print (error_line (get_archive_name b) ex)],
             final u, Ret false)) as Hloop.
  { rewrite Hlist, update_loop_app. cbv zeta. fold u. rewrite Hu.
    cbn [update_loop]. unfold bind. rewrite update_step_eq. cbv zeta.
    fold rb. rewrite Hb. unfold ret. cbn [trace final result fst snd].
    by rewrite app_nil_r, Hfb. }
  pose proof (update_loop_closed w _ a (loaded w) Hnd1 Ha) as Hstamp.
  fold u in Hstamp.
  assert (trace (run w)
          = trace u ++ trace rb
            ++ [Print (error_line (get_archive_name b) ex);
                WriteHistory (document_of (final u))]) as Htrace.
  { rewrite run_eq, Hload. cbv zeta. rewrite Hloop.
    cbn [trace final result fst snd].
    rewrite save_history_printable by done. cbn [trace fst].
    by rewrite <- !app_assoc. }
  split; [done|]. split; [|split; [|split; [done|]]].
  - apply Forall_forall. intros [c tc] Hc. cbn [fst]. rewrite Htrace.
    assert (c ∉ fst <$> before ++ (a, ta) :: between) as Hc1.
    { intros Hin. apply (Hdisj c Hin). right.
      apply list_elem_of_fmap. by exists (c, tc). }
    assert (c ≠ b) as Hcb.
    { intros ->. apply Hb_after. apply list_elem_of_fmap. by exists (b, tc). }
    pose proof (update_loop_other w _ c (loaded w) Hc1) as [_ Hu_tr].
    cbv zeta in Hu_tr. fold u in Hu_tr.
    apply Forall_app_2; [|apply Forall_app_2].
    + eapply Forall_impl; [exact Hu_tr|]. by intros ev [? _].
    + eapply Forall_impl; [exact Hoa|]. intros ev [Hp|Harch]; [by destruct ev|].
      rewrite Harch. intros Heq.
      apply (f_equal (default "")) in Heq. cbn [from_option id] in Heq.
      by apply get_archive_name_inj in Heq.
    + by repeat constructor.
  - rewrite run_eq, Hload. cbv zeta. rewrite Hloop. by cbn [final fst snd].
  - unfold document_of. cbn [Xml.root_childNodes].
    apply elem_of_pretty_childNodes, list_elem_of_fmap.
    exists (a, int_of_float (time_time w a)). split; [done|].
    by apply elem_of_map_to_list.
Qed.

(** ** Errors and what is said about them *)

(** C9, as the code has it. Every exception raised in a run is reported,
    by a line of [update_archives] or by leaving [main], except an
    [IOError] raised while the metadata file is read: that one is passed
    over without a word. *)
Theorem errors_are_reported_except_IOError_on_load w ex :
  raised_in_run w ex →
  reported w ex
  ∨ ∃ msg, ex = IOError msg ∧ result (history_nodes w ∅) = Raise ex.
Proof.
  intros [ex' Hload|pre sub_dir tree post ex' Hload Hlist Hpre Hraise
         |ex' Hload Hsave].
  - unfold reported. rewrite run_eq.
    rewrite (proj1 (parse_archive_history_eq w ∅)), Hload.
    destruct ex'; cbn [result snd];
      try (left; right; left; reflexivity).
    + right. by eexists.
    + left. right. right. by eexists.
  - left. left. exists (get_archive_name sub_dir).
    rewrite run_eq, Hload. cbv zeta. cbn [trace fst].
    rewrite Hlist, update_loop_app. cbv zeta. rewrite Hpre.
    cbn [update_loop]. unfold bind. rewrite update_step_eq. cbv zeta.
    rewrite Hraise. unfold ret. cbn [trace final result fst snd].
    rewrite !elem_of_app. left. right. left. right. by left.
  - left. right. left. rewrite run_eq, Hload. cbv zeta. by cbn [result snd].
Qed.

(** ** Runs in particular worlds *)

Ltac not_in_list :=
  let Hin := fresh in
  intros Hin;
  repeat (apply elem_of_cons in Hin as [Hin|Hin]; [discriminate Hin|]);
  by apply elem_of_nil in Hin.

(** C8 at the failing input. The name ["a"] is absent from the loaded
    history, so the watermark is the sentinel [-1]; the directory's own
    time 0 is greater and [is_modified_after] returns it; [try_archive]
    takes the returned [0.0] for "not modified": no archive is created
    and ["a"] stays absent from the history. *)
Theorem first_encounter_at_epoch_is_not_archived :
  loaded epoch_world !! "a" = None
  ∧ watermark (loaded epoch_world) "a" = -1
  ∧ newer_than (-1) 0%Qc
  ∧ result (is_modified_after epoch_world "a"
              (Dir 0%Qc [("f", qc 1700000000 1)] []) (-1) ∅) = Ret (Some 0%Qc)
  ∧ trace (run epoch_world)
    = [Print "## Dir a                              never last processed";
       Print "---- Dir a was modified";
       WriteHistory (document_of ∅)]
  ∧ final (run epoch_world) !! "a" = None.
Proof. repeat split. Qed.

(** X16. Any other first encounter is archived: a subdirectory the
    history does not have, whose own modification time is greater than 0,
    is archived and stamped when neither the walk nor [tarfile] raises.
    The sentinel is below every time from the epoch on, and a first hit
    other than 0 counts. *)
Lemma first_encounter_is_archived w sub_dir mtime files dirs h :
  h !! sub_dir = None →
  (0 < mtime)%Qc →
  walk_fault w sub_dir = None →
  tar_fault w (get_archive_name sub_dir) = None →
  let r := try_archive w sub_dir (Dir mtime files dirs)
             (get_archive_name sub_dir) h in
  TarClose (get_archive_name sub_dir) ∈ trace r
  ∧ final r = <[sub_dir := int_of_float (time_time w sub_dir)]> h.
Proof.
  intros Hh Hm Hwalk Htar. cbv zeta.
  assert (watermark h sub_dir = -1) as Hwm by (unfold watermark; by rewrite Hh).
  assert (newer mtime (-1) = true) as Hnew.
  { apply newer_true. unfold newer_than.
    apply Qclt_trans with 0%Qc; [done|done]. }
  assert (truthy (first_hit sub_dir (Dir mtime files dirs) h) = true) as Htruthy.
  { unfold first_hit. rewrite Hwm. cbn [walk fmap list_fmap concat].
    unfold visit_mtimes at 1. cbn [fst snd app find]. rewrite Hnew. cbn.
    apply negb_true_iff, bool_decide_eq_false. intros Heq.
    by apply (Qclt_not_eq _ _ Hm). }
  destruct (try_archive_shape w sub_dir (Dir mtime files dirs)
              (get_archive_name sub_dir) h)
    as (out & Hout & [(e & _ & [[Hpos Hnp]|Hw])|[(_ & Ht & _)|(_ & _ & ->)]]).
  - rewrite Hwm in Hpos. lia.
  - congruence.
  - congruence.
  - pose proof (create_archive_cases w sub_dir (get_archive_name sub_dir) h) as Hc.
    cbv zeta in Hc. rewrite Htar in Hc. rewrite Hc.
    cbn [trace final result fst snd]. split; [|done].
    rewrite elem_of_app. right. rewrite !elem_of_cons. by right; right; left.
Qed.

(** Distinct names, by evaluation *)
Lemma sample_NoDup (l : list string) :
  bool_decide (NoDup l) = true → NoDup l.
Proof. apply bool_decide_eq_true_1. Qed.

(** The run over [sample_world] archives [dir1] and stamps it. *)
Lemma modified_is_archived_witness :
  TarClose "z-backup-dir1.tar.gz" ∈ trace (run sample_world)
  ∧ final (run sample_world) !! "dir1" = Some 1700000000.
Proof.
  destruct (modified_is_archived sample_world [("dir0", fresh_tree)] "dir1"
              touched_tree [] (qc 1700000000 1))
    as (_ & Hclose & Hstamp & _).
  - reflexivity.
  - reflexivity.
  - by apply sample_NoDup.
  - reflexivity.
  - reflexivity.
  - reflexivity.
  - reflexivity.
  - exists (qc 1296758095 1). split; [|reflexivity]. right. by left.
  - discriminate.
  - discriminate.
  - split; [exact Hclose|exact Hstamp].
Defined.

(** In [touched_tree] the file is the first entry newer than the
    watermark; the newer [CVS] subtree is not looked at. *)
Lemma is_modified_after_first_newer_witness :
  result (is_modified_after sample_world "dir1" touched_tree 1296758094 ∅)
  = Ret (Some (qc 1296758095 1)).
Proof.
  by destruct (is_modified_after_first_newer sample_world "dir1" touched_tree
                 1296758094 ∅ eq_refl eq_refl) as [H _].
Defined.

(** What the run over [fail_fast_world] does *)
Lemma fail_fast_trace :
  trace (run fail_fast_world)
  = [Print "## Dir dirA                           never last processed";
     Print "---- Dir dirA was modified";
     Print "---- Creating archive z-backup-dirA.tar.gz";
     TarOpen "z-backup-dirA.tar.gz";
     TarAdd "z-backup-dirA.tar.gz" "dirA";
     TarClose "z-backup-dirA.tar.gz";
     Print "## Dir dirB                           never last processed";
     Print "---- Dir dirB was modified";
     Print "---- Creating archive z-backup-dirB.tar.gz";
     TarOpen "z-backup-dirB.tar.gz";
     Print "Error in creating z-backup-dirB.tar.gz - No space left on device";
     WriteHistory (document_of {["dirA" := 1700000000]})].
Proof. reflexivity. Qed.

(** The run over [fail_fast_world], event by event *)
Lemma failure_stops_loop_history_saved_witness :
  trace (run fail_fast_world)
  = [Print "## Dir dirA                           never last processed";
     Print "---- Dir dirA was modified";
     Print "---- Creating archive z-backup-dirA.tar.gz";
     TarOpen "z-backup-dirA.tar.gz";
     TarAdd "z-backup-dirA.tar.gz" "dirA";
     TarClose "z-backup-dirA.tar.gz";
     Print "## Dir dirB                           never last processed";
     Print "---- Dir dirB was modified";
     Print "---- Creating archive z-backup-dirB.tar.gz";
     TarOpen "z-backup-dirB.tar.gz";
     Print "Error in creating z-backup-dirB.tar.gz - No space left on device";
     WriteHistory (document_of {["dirA" := 1700000000]})]
  ∧ final (run fail_fast_world) !! "dirA" = Some 1700000000.
Proof.
  destruct (failure_stops_loop_history_saved fail_fast_world
              [] "dirA" fresh_tree [] "dirB" fresh_tree [("dirC", fresh_tree)]
              disk_full)
    as (_ & _ & Hstamp & Htrace & _).
  - reflexivity.
  - reflexivity.
  - by apply sample_NoDup.
  - reflexivity.
  - right. right. right. right. right. by left.
  - reflexivity.
  - reflexivity.
  - intros name t Ht.
    change (final _) with ({["dirA" := 1700000000]} : gmap string Z) in Ht.
    apply lookup_singleton_Some in Ht as [_ <-]. by eexists.
  - split; [exact Htrace|exact Hstamp].
Defined.

(** The failed archive of [dirB] leaves the stamp of [dirA] alone. *)
Lemma create_archive_atomic_witness :
  final (create_archive fail_fast_world "dirB" "z-backup-dirB.tar.gz"
           {["dirA" := 1700000000]})
  = {["dirA" := 1700000000]}.
Proof.
  by destruct (create_archive_atomic fail_fast_world "dirB" fresh_tree
                 "z-backup-dirB.tar.gz" {["dirA" := 1700000000]} AtAdd disk_full
                 eq_refl) as (_ & H & _).
Defined.

(** The full disk is reported. *)
Lemma errors_are_reported_witness :
  reported fail_fast_world disk_full
  ∨ ∃ msg, disk_full = IOError msg
           ∧ result (history_nodes fail_fast_world ∅) = Raise disk_full.
Proof.
  apply errors_are_reported_except_IOError_on_load.
  by apply (raised_archiving fail_fast_world [("dirA", fresh_tree)] "dirB"
              fresh_tree [("dirC", fresh_tree)]).
Defined.

(** C1 as stated fails in two ways. After the failure for [dirB] the loop
    is over: [dirC], which is new and has a directory time above the
    sentinel, gets no archive and no entry. And the entry is the clock cut
    to whole seconds: with a run started at 0.5 and the archive closed at
    0.75, the entry is 0, neither the time of the clock nor at least the
    starting time. *)
Lemma modified_is_archived_counterexample :
  (("dirC", fresh_tree) ∈ listing fail_fast_world
   ∧ (∃ m, m ∈ inspected fresh_tree
           ∧ newer_than (watermark (loaded fail_fast_world) "dirC") m)
   ∧ Forall (λ ev, archive_of ev ≠ Some (get_archive_name "dirC"))
       (trace (run fail_fast_world))
   ∧ final (run fail_fast_world) !! "dirC" = None)
  ∧ ((qc 1 2 ≤ time_time sub_second_world "a")%Qc
     ∧ TarClose (get_archive_name "a") ∈ trace (run sub_second_world)
     ∧ final (run sub_second_world) !! "a" = Some 0
     ∧ Qc_of_Z 0 ≠ time_time sub_second_world "a"
     ∧ (Qc_of_Z 0 < qc 1 2)%Qc).
Proof.
  split.
  - split; [by right; right; left|]. split; [|split; [|reflexivity]].
    + exists (qc 5 1). split; [by left|reflexivity].
    + rewrite fail_fast_trace.
      repeat (constructor; [discriminate|]). constructor.
  - split; [discriminate|]. split; [|split; [reflexivity|split; [|reflexivity]]].
    + right. right. right. right. right. by left.
    + discriminate.
Qed.

(** C3 as stated fails: these two files have exactly one root element,
    which has a [version] attribute, and no [directory] element at all,
    and yet loading them raises the format error. *)
Lemma load_format_error_counterexample :
  (length (filter (λ n, is_element n = true)
             (Xml.document_childNodes commented_document)) = 1%nat
   ∧ Xml.root_attributes commented_document !! "version" = Some "1"
   ∧ dir_nodes_of commented_document = []
   ∧ result (parse_archive_history
               (no_faults (Xml.WellFormed commented_document) [] 0%Qc) ∅)
     = Raise (ExcInvalidFormat "Invalid root elements <archive> in metadata file"))
  ∧ (length (filter (λ n, is_element n = true)
               (Xml.document_childNodes empty_version_document)) = 1%nat
     ∧ is_Some (Xml.root_attributes empty_version_document !! "version")
     ∧ dir_nodes_of empty_version_document = []
     ∧ result (parse_archive_history
                 (no_faults (Xml.WellFormed empty_version_document) [] 0%Qc) ∅)
       = Raise (ExcInvalidFormat "Lack of version attribute in metadata file")).
Proof. repeat split. by eexists. Qed.

(** A file that is not XML stops the run before anything happens. *)
Lemma format_error_stops_the_run_witness :
  trace (run ill_formed_world) = []
  ∧ result (run ill_formed_world)
    = Raise (ExcInvalidFormat
               "Invalid format archive-history.xml - mismatched tag: line 3, column 2").
Proof. by apply format_error_stops_the_run. Defined.

(** C9 as stated fails: the metadata file is there and cannot be opened,
    the [IOError] is passed over, nothing is printed and the run ends as
    if nothing had happened, writing an empty history. *)
Lemma errors_are_reported_counterexample :
  raised_in_run unreadable_world
    (IOError "[Errno 13] Permission denied: 'archive-history.xml'")
  ∧ trace (run unreadable_world) = [WriteHistory (document_of ∅)]
  ∧ result (run unreadable_world) = Ret tt
  ∧ ¬ reported unreadable_world
        (IOError "[Errno 13] Permission denied: 'archive-history.xml'").
Proof.
  split; [by apply raised_loading|]. split; [reflexivity|]. split; [reflexivity|].
  intros [[archive_name Hin]|[Hr|(msg & [=] & _)]].
  - change (trace (run unreadable_world))
      with [WriteHistory (document_of ∅)] in Hin.
    apply list_elem_of_singleton in Hin. discriminate Hin.
  - discriminate Hr.
Qed.



(** The run over [quiet_world] leaves [dir1] and its entry alone. *)
Lemma unmodified_is_left_alone_witness :
  Forall (λ ev, archive_of ev ≠ Some "z-backup-dir1.tar.gz") (trace (run quiet_world))
  ∧ final (run quiet_world) !! "dir1" = Some 1296758094.
Proof.
  destruct (unmodified_is_left_alone quiet_world "dir1" untouched_tree)
    as (Htrace & Hfinal & _).
  - by apply sample_NoDup.
  - right. by left.
  - reflexivity.
  - by apply find_newer_None.
  - split; [exact Htrace|exact Hfinal].
Defined.

(** ** Further properties *)

(** *** Writing times *)

Lemma sec_to_str_time_cases secnum h :
  (printable secnum
   ∧ sec_to_str_time secnum h = ([], h, Ret (time_text secnum)))
  ∨ (¬ printable secnum
     ∧ ∃ msg, sec_to_str_time secnum h = ([], h, Raise (ValueError msg))).
Proof.
  unfold sec_to_str_time, printable, time_text.
  destruct (gmtime secnum) as [t|]; cbn [mbind option_bind].
  - destruct (strftime t) as [text|].
    + left. split; [by eexists|done].
    + right. split; [by intros [? [=]]|by eexists].
  - right. split; [by intros [? [=]]|by eexists].
Qed.

Lemma create_dir_tags_cases items h :
  (Forall (λ item, printable item.2) items
   ∧ create_dir_tags items h = ([], h, Ret (dir_tag_of <$> items)))
  ∨ (Exists (λ item, ¬ printable item.2) items
     ∧ ∃ msg, create_dir_tags items h = ([], h, Raise (ValueError msg))).
Proof.
  induction items as [|[name v] items IH]; [by left|].
  cbn [create_dir_tags]. unfold create_dir_tag, bind.
  destruct (sec_to_str_time_cases v h) as [[Hv ->]|[Hv [msg ->]]].
  - cbn [ret]. destruct IH as [[Hall ->]|[Hex [msg ->]]].
    + left. split; [by constructor|done].
    + right. split; [by right|by eexists].
  - right. split; [by left|by eexists].
Qed.

(** The three ways through [save_history] *)
Lemma save_history_cases w h :
  ((∀ name t, h !! name = Some t → printable t)
   ∧ save_history w h
     = match save_fault w with
       | Some ex => ([], h, Raise ex)
       | None => ([WriteHistory (document_of h)], h, Ret tt)
       end)
  ∨ ((∃ name t, h !! name = Some t ∧ ¬ printable t)
     ∧ ∃ msg, save_history w h = ([], h, Raise (ValueError msg))).
Proof.
  unfold save_history, bind, get_history.
  destruct (create_dir_tags_cases (map_to_list h) h)
    as [[Hall ->]|[Hex [msg ->]]].
  - left. split.
    + intros name t Ht. rewrite Forall_forall in Hall.
      by apply (Hall (name, t)), elem_of_map_to_list.
    + by destruct (save_fault w).
  - right. split; [|by eexists].
    apply Exists_exists in Hex as ([name t] & Hin & Hnp).
    exists name, t. split; [by apply elem_of_map_to_list|done].
Qed.

(** X1. [save_history] writes all or nothing: when one time of the
    history cannot be written by [sec_to_str_time], it raises a
    [ValueError] before the file is opened, so that the file on disk stays
    as it was, and the history in memory too. *)
Theorem save_history_all_or_nothing w h name t :
  h !! name = Some t → ¬ printable t →
  trace (save_history w h) = []
  ∧ final (save_history w h) = h
  ∧ ∃ msg, result (save_history w h) = Raise (ValueError msg).
Proof.
  intros Ht Hnp.
  destruct (save_history_cases w h) as [[Hall _]|[_ [msg ->]]].
  - destruct Hnp. by apply (Hall name).
  - repeat split. by exists msg.
Qed.

Lemma save_history_all_or_nothing_witness :
  trace (save_history (no_faults Xml.Absent [] 0%Qc)
           {["dir1" := 1296758094; "dir2" := far_future]}) = [].
Proof.
  assert (¬ printable far_future) as Hnp.
  { intros [text Ht]. vm_compute in Ht. discriminate Ht. }
  assert (({["dir1" := 1296758094; "dir2" := far_future]} : gmap string Z)
            !! "dir2" = Some far_future) as Hl.
  { rewrite lookup_insert_ne by done. apply lookup_singleton_eq. }
  exact (proj1 (save_history_all_or_nothing (no_faults Xml.Absent [] 0%Qc)
                  _ "dir2" far_future Hl Hnp)).
Defined.


(** *** Archive names *)

(** X3. Two subdirectories never share an archive: [get_archive_name]
    gives different names to different subdirectories, so that within a
    run no archive overwrites another. *)
Theorem archive_names_differ a b :
  a ≠ b → get_archive_name a ≠ get_archive_name b.
Proof. intros Hne Heq. by apply Hne, get_archive_name_inj. Qed.

Lemma archive_names_differ_witness :
  get_archive_name "dir" ≠ get_archive_name "dir.tar.gz".
Proof. by apply archive_names_differ. Defined.

(** *** The line of the last archival *)

(** X4. For a name the history does not have, and for a stored time
    before the epoch, [get_last_archivized_time] says ["never"]: it
    returns the sentinel [-1], respectively the stored negative time, as
    the watermark, raises nothing, prints nothing and leaves the history
    alone. *)
Theorem never_for_absent_or_negative sub_dir h :
  watermark h sub_dir < 0 →
  get_last_archivized_time sub_dir h = ([], h, Ret (watermark h sub_dir, "never"))
  ∧ (h !! sub_dir = None → watermark h sub_dir = -1).
Proof.
  intros Hneg. split.
  - unfold get_last_archivized_time, bind, get_history.
    fold (watermark h sub_dir).
    by destruct (Z.leb_spec 0 (watermark h sub_dir)); [lia|].
  - unfold watermark. by intros ->.
Qed.

Lemma never_for_absent_or_negative_witness :
  get_last_archivized_time "dir1" {["dir0" := 5]}
  = ([], {["dir0" := 5]}, Ret (-1, "never")).
Proof.
  by destruct (never_for_absent_or_negative "dir1" {["dir0" := 5]}) as [H _].
Defined.

(** X5. Whatever the metadata file holds, the line of the last archival
    can be printed for every name after loading: the loaded times that
    are not negative lie in the years 1970 to 10000, which
    [sec_to_str_time] can write, so that [get_last_archivized_time] does
    not raise on a history that [parse_archive_history] left. *)
Theorem loaded_watermark_can_be_shown w h sub_dir :
  ∃ text, get_last_archivized_time sub_dir (final (parse_archive_history w h))
          = ([], final (parse_archive_history w h),
             Ret (watermark (final (parse_archive_history w h)) sub_dir, text)).
Proof. apply get_last_archivized_time_ok. apply loaded_printable. Qed.

(** *** The loop never raises *)

(** X6. [update_archives] catches whatever [try_archive] raises, a user
    interrupt included: it always returns, so that a run whose loading
    did not raise always goes on to [save_history], and ends as
    [save_history] ends. *)
Theorem update_archives_never_raises w h :
  result (update_archives w h) = Ret tt
  ∧ (result (parse_archive_history w ∅) = Ret tt →
     result (run w)
     = result (save_history w (final (update_archives w (loaded w))))).
Proof.
  assert (∀ h, result (update_archives w h) = Ret tt
               ∧ final (update_archives w h)
                 = final (update_loop w (listing w) h)) as Hu.
  { intros h'. unfold update_archives, get_sub_dirs, bind.
    destruct (update_loop_total w (listing w) h') as [go_on Hgo].
    destruct (update_loop w (listing w) h') as [[t1 h1] r1].
    cbn [result snd] in Hgo. by subst r1. }
  split; [apply Hu|].
  intros Hload. rewrite run_eq, Hload. cbv zeta. cbn [result snd].
  by rewrite (proj2 (Hu (loaded w))).
Qed.

Lemma update_archives_never_raises_witness :
  result (run sample_world)
  = result (save_history sample_world
              (final (update_archives sample_world (loaded sample_world)))).
Proof.
  exact (proj2 (update_archives_never_raises sample_world ∅) eq_refl).
Defined.

(** *** What the loop does to the history *)

Lemma update_loop_no_write w sub_dirs h :
  Forall (λ ev, is_write ev = false) (trace (update_loop w sub_dirs h)).
Proof.
  revert h. induction sub_dirs as [|[sub_dir tree] rest IH]; intros h;
    [constructor|].
  cbn [update_loop]. unfold bind. rewrite update_step_eq. cbv zeta.
  pose proof (try_archive_frame w sub_dir tree h) as (Hoa & _ & _).
  cbv zeta in Hoa.
  set (r := try_archive w sub_dir tree (get_archive_name sub_dir) h) in *.
  assert (Forall (λ ev, is_write ev = false) (trace r)) as Htr.
  { eapply Forall_impl; [exact Hoa|]. intros ev [Hp|Ha]; by destruct ev. }
  destruct (result r).
  - specialize (IH (final r)).
    destruct (update_loop w rest (final r)) as [[t2 h2] r2].
    cbn [trace fst] in *. by apply Forall_app_2.
  - unfold ret. cbn [trace fst]. rewrite app_nil_r.
    apply Forall_app_2; [exact Htr|]. by repeat constructor.
Qed.

Lemma update_loop_entry w sub_dirs h name :
  let r := update_loop w sub_dirs h in
  final r !! name = h !! name
  ∨ (final r !! name = Some (int_of_float (time_time w name))
     ∧ TarClose (get_archive_name name) ∈ trace r).
Proof.
  revert h. induction sub_dirs as [|[sub_dir tree] rest IH]; intros h;
    [by left|].
  cbv zeta. cbn [update_loop]. unfold bind. rewrite update_step_eq. cbv zeta.
  pose proof (try_archive_frame w sub_dir tree h) as (_ & Hfin & _).
  cbv zeta in Hfin.
  set (r := try_archive w sub_dir tree (get_archive_name sub_dir) h) in *.
  assert (final r !! name = h !! name
          ∨ (final r !! name = Some (int_of_float (time_time w name))
             ∧ TarClose (get_archive_name name) ∈ trace r)) as Hstep.
  { destruct Hfin as [[-> _]|(-> & _ & Hclose)]; [by left|].
    destruct (decide (sub_dir = name)) as [->|Hne].
    - right. by rewrite lookup_insert_eq.
    - left. by rewrite lookup_insert_ne. }
  destruct (result r).
  - specialize (IH (final r)). cbv zeta in IH.
    destruct (update_loop w rest (final r)) as [[t2 h2] r2].
    cbn [trace final fst snd] in *.
    destruct IH as [Heq|[Hs Hc]].
    + destruct Hstep as [Heq'|[Hs Hc]]; [left; congruence|].
      right. split; [congruence|]. apply elem_of_app. by left.
    + right. split; [done|]. apply elem_of_app. by right.
  - unfold ret. cbn [trace final fst snd]. rewrite app_nil_r.
    destruct Hstep as [Heq|[Hs Hc]]; [by left|].
    right. split; [done|]. apply elem_of_app. by left.
Qed.

(** X7. The loop assigns to the history only after an archive was
    written: an entry that is not what it was before [update_archives]
    belongs to a subdirectory whose archive was closed in this run, and
    is the clock read for it, cut to whole seconds. *)
Theorem entry_changes_only_after_close w h name :
  final (update_archives w h) !! name ≠ h !! name →
  TarClose (get_archive_name name) ∈ trace (update_archives w h)
  ∧ final (update_archives w h) !! name
    = Some (int_of_float (time_time w name)).
Proof.
  unfold update_archives, get_sub_dirs, bind.
  pose proof (update_loop_entry w (listing w) h name) as He. cbv zeta in He.
  destruct (update_loop w (listing w) h) as [[t1 h1] [go_on|ex]];
    cbn [trace final fst snd ret] in *; rewrite ?app_nil_r;
    intros Hne; by destruct He as [Heq|[Hs Hc]].
Qed.

Lemma entry_changes_only_after_close_witness :
  TarClose "z-backup-dir1.tar.gz"
  ∈ trace (update_archives sample_world {["dir1" := 1296758094]}).
Proof.
  by destruct (entry_changes_only_after_close sample_world
                 {["dir1" := 1296758094]} "dir1") as [H _].
Defined.

(** X8. The loop never drops an entry: a name the history has keeps an
    entry, and the entry of a name that is not among the subdirectories
    of the working directory, of a directory that is gone, is kept as it
    is. *)
Theorem entries_are_kept w h name :
  (is_Some (h !! name) → is_Some (final (update_archives w h) !! name))
  ∧ (name ∉ fst <$> get_sub_dirs w →
     final (update_archives w h) !! name = h !! name).
Proof.
  unfold update_archives, get_sub_dirs, bind.
  pose proof (update_loop_entry w (listing w) h name) as He. cbv zeta in He.
  pose proof (update_loop_other w (listing w) name h) as Ho. cbv zeta in Ho.
  destruct (update_loop w (listing w) h) as [[t1 h1] [go_on|ex]];
    cbn [trace final fst snd ret] in *.
  - split; [|intros Hn; by apply Ho].
    intros Hsome. destruct He as [->|[-> _]]; [done|by eexists].
  - split; [|intros Hn; by apply Ho].
    intros Hsome. destruct He as [->|[-> _]]; [done|by eexists].
Qed.

Lemma entries_are_kept_witness :
  final (update_archives sample_world {["gone" := 7]}) !! "gone" = Some 7.
Proof.
  rewrite (proj2 (entries_are_kept sample_world {["gone" := 7]} "gone")).
  - apply lookup_singleton_eq.
  - change ("gone" ∉ ["dir0"; "dir1"]). intros Hin.
    repeat (apply elem_of_cons in Hin as [Hin|Hin]; [discriminate Hin|]).
    by apply elem_of_nil in Hin.
Defined.

(** X9. In a run over subdirectories of distinct names that loaded its
    history, every archive that was closed has its subdirectory stamped:
    at the end the history maps it to the clock read after the closing,
    cut to whole seconds. *)
Theorem closed_archive_is_stamped w a :
  result (parse_archive_history w ∅) = Ret tt →
  NoDup (fst <$> listing w) →
  TarClose (get_archive_name a) ∈ trace (run w) →
  final (run w) !! a = Some (int_of_float (time_time w a)).
Proof.
  intros Hload Hnd. rewrite run_eq, Hload. cbv zeta.
  cbn [trace final fst snd]. intros Hin.
  apply elem_of_app in Hin as [Hin|Hin]; [by apply update_loop_closed|].
  exfalso.
  destruct (save_history_frame w (final (update_loop w (listing w) (loaded w))))
    as [_ [Ht|[d Ht]]]; rewrite Ht in Hin.
  - by apply elem_of_nil in Hin.
  - apply list_elem_of_singleton in Hin. discriminate Hin.
Qed.

Lemma closed_archive_is_stamped_witness :
  final (run fail_fast_world) !! "dirA" = Some 1700000000.
Proof.
  apply (closed_archive_is_stamped fail_fast_world "dirA").
  - reflexivity.
  - by apply sample_NoDup.
  - rewrite fail_fast_trace. right. right. right. right. right. by left.
Defined.

(** X10. A run writes the metadata file at most once, and as the last
    thing it does: whatever is printed and archived comes before, and
    the document written is that of the history the run ends with. *)
Theorem history_is_written_last w :
  ∃ before,
    Forall (λ ev, is_write ev = false) before
    ∧ (trace (run w) = before
       ∨ trace (run w) = before ++ [WriteHistory (document_of (final (run w)))]).
Proof.
  rewrite run_eq.
  destruct (result (parse_archive_history w ∅)).
  - cbv zeta. cbn [trace final fst snd].
    exists (trace (update_loop w (listing w) (loaded w))).
    split; [apply update_loop_no_write|].
    destruct (save_history_cases w (final (update_loop w (listing w) (loaded w))))
      as [[_ ->]|[_ [msg ->]]].
    + destruct (save_fault w); cbn [trace fst]; [left; by rewrite app_nil_r|].
      by right.
    + left. cbn [trace fst]. by rewrite app_nil_r.
  - exists []. split; [constructor|by left].
Qed.

(** *** What the change detector prints *)

Lemma scan_output visits max_mtime h :
  match result (scan visits max_mtime h) with
  | Ret None => trace (scan visits max_mtime h) = []
  | Ret (Some _) =>
      ∃ path, trace (scan visits max_mtime h)
              = [Print ("---- Dir " +:+ path +:+ " was modified")]
              ∨ trace (scan visits max_mtime h)
                = [Print ("---- File " +:+ path +:+ " was modified")]
  | Raise _ => False
  end.
Proof.
  induction visits as [|[[curdir m] files] visits IH]; [done|].
  cbn [scan]. destruct (newer m max_mtime).
  - exists curdir. by left.
  - destruct (first_newer_file curdir files max_mtime) as [[path fm]|]; [|done].
    exists path. by right.
Qed.

(** X11. [is_modified_after] prints exactly one line when it returns a
    time, naming the directory or the file it found, and nothing when it
    returns no value or is cut short by an exception. *)
Theorem is_modified_after_prints_one_line w directory tree max_mtime h :
  match result (is_modified_after w directory tree max_mtime h) with
  | Ret (Some _) =>
      ∃ path, trace (is_modified_after w directory tree max_mtime h)
              = [Print ("---- Dir " +:+ path +:+ " was modified")]
              ∨ trace (is_modified_after w directory tree max_mtime h)
                = [Print ("---- File " +:+ path +:+ " was modified")]
  | _ => trace (is_modified_after w directory tree max_mtime h) = []
  end.
Proof.
  unfold is_modified_after. destruct (walk_fault w directory); [done|].
  pose proof (scan_output (walk directory tree) max_mtime h) as Hs.
  by destruct (result (scan _ _ h)) as [[?|]|].
Qed.

(** *** What loading leaves in the history *)

Lemma for_each_app {A} (l1 l2 : list A) (body : A → M unit) h :
  for_each (l1 ++ l2) body h
  = bind (for_each l1 body) (λ _, for_each l2 body) h.
Proof.
  revert h. induction l1 as [|x l1 IH]; intros h.
  - cbn. unfold bind, ret. by destruct (for_each l2 body h) as [[t2 h2] r2].
  - cbn [app for_each]. unfold bind in *.
    destruct (body x h) as [[t1 h1] [[]|e]]; [|done].
    rewrite IH. destruct (for_each l1 body h1) as [[t2 h2] [[]|e]]; [|done].
    destruct (for_each l2 body h2) as [[t3 h3] r3]. by rewrite app_assoc.
Qed.

Lemma parse_dir_node_entry n h :
  good_directory n →
  ∃ t, dir_time n = Some t
       ∧ parse_dir_node n h = ([], <[dir_name n := t]> h, Ret tt).
Proof.
  intros Hgood.
  destruct (parse_dir_node_good n h Hgood) as (name & t & Hp & _ & Hn).
  destruct n as [tag attributes children|]; [|done].
  destruct Hn as [-> Ht]. exists (timegm t).
  split; [|done]. cbn [dir_time]. by rewrite Ht.
Qed.

Lemma for_each_parse_other_names nodes name h :
  Forall (λ n, good_directory n ∧ dir_name n ≠ name) nodes →
  ∃ h', for_each nodes parse_dir_node h = ([], h', Ret tt)
        ∧ h' !! name = h !! name.
Proof.
  revert h. induction nodes as [|n nodes IH]; intros h Hall; [by exists h|].
  apply Forall_cons in Hall as [[Hgood Hne] Hall].
  destruct (parse_dir_node_entry n h Hgood) as (t & _ & Hp).
  cbn [for_each]. unfold bind. rewrite Hp.
  destruct (IH (<[dir_name n := t]> h) Hall) as (h' & -> & Hl).
  exists h'. split; [done|]. by rewrite Hl, lookup_insert_ne.
Qed.

(** X12. When the metadata file holds several [directory] elements of one
    name, the last one counts: after a loading that went through, the
    history maps the name to the time of the last element that carries
    it. *)
Theorem last_directory_element_wins w d before n after t h :
  metadata w = Xml.WellFormed d →
  result (parse_archive_history w h) = Ret tt →
  dir_nodes_of d = before ++ n :: after →
  dir_time n = Some t →
  Forall (λ m, dir_name m ≠ dir_name n) after →
  final (parse_archive_history w h) !! dir_name n = Some t.
Proof.
  intros Hmeta Hres Hsplit Ht Hafter.
  rewrite (proj1 (parse_archive_history_eq w h)) in Hres |- *.
  assert (∃ r, history_nodes w ∅ = ([], final (history_nodes w ∅), r)
               ∧ (r = Ret tt → final (history_nodes w ∅) !! dir_name n = Some t)
               ∧ (∀ ex, r = Raise ex → ¬ ∃ msg, ex = IOError msg)) as (r & Hn & Hok & Hex).
  { unfold history_nodes, bind. rewrite get_dir_nodes_cases, Hmeta.
    destruct (negb _); [eexists; split; [done|]; split; [done|]; by intros ? [= <-] [? [=]]|].
    destruct (is_empty _); [eexists; split; [done|]; split; [done|]; by intros ? [= <-] [? [=]]|].
    rewrite Hsplit.
    destruct (first_not_good (before ++ n :: after))
      as [Hall|(pre & m & post & Hsplit' & Hpre & Hm)].
    - apply Forall_app in Hall as [Hbefore Hall].
      apply Forall_cons in Hall as [Hgood Hall].
      rewrite for_each_app. unfold bind.
      destruct (for_each_parse_good before ∅ Hbefore) as [h1 ->].
      cbn [for_each]. unfold bind.
      destruct (parse_dir_node_entry n h1 Hgood) as (t' & Ht' & ->).
      assert (t' = t) as -> by congruence.
      destruct (for_each_parse_other_names after (dir_name n)
                  (<[dir_name n := t]> h1)) as (h' & -> & Hl).
      { apply Forall_forall. intros m Hin. rewrite Forall_forall in Hall, Hafter.
        split; [by apply Hall|by apply Hafter]. }
      eexists. split; [done|]. cbn [final fst snd]. split; [|done].
      intros _. by rewrite Hl, lookup_insert_eq.
    - rewrite Hsplit'.
      destruct (for_each_parse_bad pre m post ∅ Hpre Hm)
        as (h' & ex & -> & [[_ [msg ->]]|[_ [msg ->]]]);
        eexists; (split; [done|]); (split; [done|]);
        by intros ? [= <-] [? [=]]. }
  rewrite Hn in Hres |- *. cbn [result final fst snd] in *.
  destruct r as [[]|ex]; [by apply Hok|].
  destruct ex; try done. destruct (Hex _ eq_refl). by eexists.
Qed.

Lemma last_directory_element_wins_witness :
  final (parse_archive_history twice_world ∅) !! "dir1" = Some 1356998400.
Proof.
  exact (last_directory_element_wins twice_world twice_document
           [Xml.Element "directory"
              (<["name" := "dir1"]>
                 (<["lastArchivized" := "2011-02-03 18:34:54 GMT"]> ∅)) [];
            Xml.Element "directory"
              (<["name" := "dir2"]>
                 (<["lastArchivized" := "2012-02-29 00:00:00 GMT"]> ∅)) []]
           (Xml.Element "directory"
              (<["name" := "dir1"]>
                 (<["lastArchivized" := "2013-01-01 00:00:00 GMT"]> ∅)) [])
           [] 1356998400 ∅ eq_refl eq_refl eq_refl eq_refl (Forall_nil_2 _)).
Defined.

Lemma for_each_parse_no_empty_name nodes h :
  h !! "" = None → final (for_each nodes parse_dir_node h) !! "" = None.
Proof.
  revert h. induction nodes as [|n nodes IH]; intros h Hh; [done|].
  cbn [for_each]. unfold bind.
  destruct (decide (good_directory n)) as [Hn|Hn].
  - destruct (parse_dir_node_good n h Hn) as (name & t & -> & Hname & _).
    specialize (IH (<[name := timegm t]> h)).
    destruct (for_each nodes parse_dir_node _) as [[t2 h2] r2].
    cbn [final fst snd] in *. apply IH. by rewrite lookup_insert_ne.
  - by destruct (parse_dir_node_bad n h Hn) as (ex & -> & _).
Qed.

Lemma loaded_no_empty_name w h :
  final (parse_archive_history w h) !! "" = None.
Proof.
  rewrite (proj1 (parse_archive_history_eq w h)).
  assert (final (history_nodes w ∅) !! "" = None) as Hn.
  { unfold history_nodes, bind. rewrite get_dir_nodes_cases.
    destruct (metadata w) as [| | |d]; try done.
    destruct (negb _); [done|]. destruct (is_empty _); [done|].
    pose proof (for_each_parse_no_empty_name (dir_nodes_of d) ∅ eq_refl) as Hf.
    by destruct (for_each _ parse_dir_node ∅) as [[t2 h2] r2]. }
  by destruct (result (history_nodes w ∅)) as [|[]].
Qed.

(** X13. A loaded history has no entry under the empty name, and a run
    over subdirectories with names that are not empty ends without one:
    the loader refuses a [directory] element whose [name] is missing or
    empty, and the loop assigns under the names of subdirectories
    only. *)
Theorem no_entry_under_the_empty_name w h :
  final (parse_archive_history w h) !! "" = None
  ∧ ("" ∉ fst <$> listing w → final (run w) !! "" = None).
Proof.
  split; [apply loaded_no_empty_name|].
  intros Hnames. rewrite run_eq.
  destruct (result (parse_archive_history w ∅));
    [|apply loaded_no_empty_name].
  cbv zeta. cbn [final fst snd].
  pose proof (update_loop_other w (listing w) "" (loaded w) Hnames) as [Hl _].
  cbv zeta in Hl. rewrite Hl. apply loaded_no_empty_name.
Qed.

Lemma no_entry_under_the_empty_name_witness :
  final (run sample_world) !! "" = None.
Proof.
  apply (proj2 (no_entry_under_the_empty_name sample_world ∅)).
  change ("" ∉ ["dir0"; "dir1"]). intros Hin.
  repeat (apply elem_of_cons in Hin as [Hin|Hin]; [discriminate Hin|]).
  by apply elem_of_nil in Hin.
Defined.

(** X14. Every time of a loaded history is the time of a date of the
    years 1 to 9999, with up to two leap seconds: it lies between
    0001-01-01 00:00:00 and one second after 10000-01-01 00:00:00. *)
Theorem loaded_times_are_bounded w h name t :
  final (parse_archive_history w h) !! name = Some t →
  T0001 ≤ t ≤ T10000 + 1.
Proof.
  intros Hl. apply loaded_values in Hl as (s & tm & Hs & ->).
  apply strptime_fields in Hs as (Hv & HH & HM & HS).
  unfold valid_date in Hv. repeat (apply andb_prop in Hv as [Hv ?]).
  pose proof (ymd2ord_year_bounds (tm_year tm) (tm_mon tm) (tm_mday tm)
                ltac:(lia) ltac:(lia)) as Hb.
  pose proof (days_before_year_mono (tm_year tm + 1) 10000 ltac:(lia)) as Hhi.
  pose proof (days_before_year_mono 1 (tm_year tm) ltac:(lia)) as Hlo.
  change (days_before_year 10000) with 3652059 in Hhi.
  change (days_before_year 1) with 0 in Hlo.
  unfold T0001, T10000, timegm, ymd2ord in *. cbv zeta.
  change EPOCH_ORD with 719163. lia.
Qed.

Lemma loaded_times_are_bounded_witness :
  T0001 ≤ 1296758094 ≤ T10000 + 1.
Proof.
  by apply (loaded_times_are_bounded
              (no_faults (Xml.WellFormed sample_document) [] 0%Qc) ∅ "dir1").
Defined.

(** *** From one run to the next *)

Lemma load_document_of (h : gmap string Z) w h' :
  (∀ name t, h !! name = Some t → name ≠ "" ∧ T1900 ≤ t < T10000) →
  metadata w = Xml.WellFormed (document_of h) →
  parse_archive_history w h' = ([], h, Ret tt).
Proof.
  intros Hh Hmeta.
  assert (history_nodes w ∅ = ([], h, Ret tt)) as Hn.
  { unfold history_nodes, bind. rewrite get_dir_nodes_cases, Hmeta.
    cbn [negb Xml.document_childNodes document_of Xml.prolog Xml.epilog
           fmap list_fmap app length Nat.eqb Xml.root_attributes].
    unfold attribute. rewrite lookup_insert_eq.
    cbn [from_option id is_empty String.eqb].
    unfold dir_nodes_of, document_of. cbn [Xml.root_childNodes].
    rewrite pretty_dir_nodes.
    rewrite for_each_parse_tags, foldl_assign_map_to_list; [done|].
    apply Forall_forall. intros [name t] Hin.
    apply elem_of_map_to_list in Hin. by apply Hh. }
  rewrite (proj1 (parse_archive_history_eq w h')). by rewrite Hn.
Qed.



(** The first encounter with [dir0], whose own time is 5 *)
Lemma first_encounter_is_archived_witness :
  TarClose "z-backup-dir0.tar.gz"
  ∈ trace (try_archive sample_world "dir0" (Dir (qc 5 1) [] [])
             "z-backup-dir0.tar.gz" ∅).
Proof.
  by destruct (first_encounter_is_archived sample_world "dir0" (qc 5 1) [] [] ∅)
    as [H _].
Defined.

(** *** What the loader looks at *)

(** X17. The loader looks at three things only: how many nodes the
    document has at its top, whether the root has a [version] that is not
    empty, and the [directory] children of the root. The tag of the root,
    the value of [version] and every other child of the root, text,
    comments and elements of other names, make no difference. *)
Theorem load_looks_at_directory_children_only w w' d d' h :
  metadata w = Xml.WellFormed d →
  metadata w' = Xml.WellFormed d' →
  length (Xml.document_childNodes d) = length (Xml.document_childNodes d') →
  is_empty (attribute (Xml.root_attributes d) "version")
  = is_empty (attribute (Xml.root_attributes d') "version") →
  dir_nodes_of d = dir_nodes_of d' →
  parse_archive_history w h = parse_archive_history w' h.
Proof.
  intros Hm Hm' Hlen Hver Hdirs.
  rewrite (proj1 (parse_archive_history_eq w h)).
  rewrite (proj1 (parse_archive_history_eq w' h)).
  assert (history_nodes w ∅ = history_nodes w' ∅) as ->; [|done].
  unfold history_nodes, bind. rewrite !get_dir_nodes_cases, Hm, Hm'.
  by rewrite Hlen, Hver, Hdirs.
Qed.

Lemma load_looks_at_directory_children_only_witness :
  parse_archive_history (no_faults (Xml.WellFormed noisy_document) [] 0%Qc) ∅
  = parse_archive_history (no_faults (Xml.WellFormed sample_document) [] 0%Qc) ∅.
Proof.
  exact (load_looks_at_directory_children_only
           (no_faults (Xml.WellFormed noisy_document) [] 0%Qc)
           (no_faults (Xml.WellFormed sample_document) [] 0%Qc)
           noisy_document sample_document ∅
           eq_refl eq_refl eq_refl eq_refl eq_refl).
Defined.

(** *** What a run archives *)

Lemma update_loop_archives w sub_dirs h :
  Forall (λ ev, is_print ev = true
                ∨ ∃ sub_dir, sub_dir ∈ fst <$> sub_dirs
                             ∧ archive_of ev = Some (get_archive_name sub_dir))
    (trace (update_loop w sub_dirs h)).
Proof.
  revert h. induction sub_dirs as [|[sub_dir tree] rest IH]; intros h;
    [constructor|].
  cbn [update_loop]. unfold bind. rewrite update_step_eq. cbv zeta.
  pose proof (try_archive_frame w sub_dir tree h) as (Hoa & _ & _).
  cbv zeta in Hoa.
  set (r := try_archive w sub_dir tree (get_archive_name sub_dir) h) in *.
  assert (Forall (λ ev, is_print ev = true
                        ∨ ∃ s, s ∈ fst <$> (sub_dir, tree) :: rest
                               ∧ archive_of ev = Some (get_archive_name s))
            (trace r)) as Htr.
  { eapply Forall_impl; [exact Hoa|]. intros ev [Hp|Ha]; [by left|].
    right. exists sub_dir. split; [by left|done]. }
  destruct (result r).
  - specialize (IH (final r)).
    destruct (update_loop w rest (final r)) as [[t2 h2] r2].
    cbn [trace fst] in *. apply Forall_app_2; [exact Htr|].
    eapply Forall_impl; [exact IH|]. intros ev [Hp|(s & Hs & Ha)]; [by left|].
    right. exists s. split; [by right|done].
  - unfold ret. cbn [trace fst]. rewrite app_nil_r.
    apply Forall_app_2; [exact Htr|]. repeat constructor.
Qed.

(** X18. A run opens, fills and closes archives of the immediate
    subdirectories of the working directory and no others: every event
    of [tarfile] in a run is for the archive name of a listed
    subdirectory. *)
Theorem archives_are_of_listed_subdirectories w ev archive_name :
  ev ∈ trace (run w) → archive_of ev = Some archive_name →
  ∃ sub_dir, sub_dir ∈ fst <$> get_sub_dirs w
             ∧ archive_name = get_archive_name sub_dir.
Proof.
  rewrite run_eq. unfold get_sub_dirs.
  destruct (result (parse_archive_history w ∅));
    [|by intros Hin%elem_of_nil].
  cbv zeta. cbn [trace fst]. intros Hin Ha.
  apply elem_of_app in Hin as [Hin|Hin].
  - pose proof (update_loop_archives w (listing w) (loaded w)) as Hall.
    rewrite Forall_forall in Hall.
    destruct (Hall ev Hin) as [Hp|(s & Hs & Ha')]; [by destruct ev|].
    exists s. split; [done|]. congruence.
  - destruct (save_history_frame w (final (update_loop w (listing w) (loaded w))))
      as [_ [Ht|[d Ht]]]; rewrite Ht in Hin.
    + by apply elem_of_nil in Hin.
    + apply list_elem_of_singleton in Hin. by subst ev.
Qed.

Lemma archives_are_of_listed_subdirectories_witness :
  ∃ sub_dir, sub_dir ∈ fst <$> get_sub_dirs fail_fast_world
             ∧ "z-backup-dirB.tar.gz" = get_archive_name sub_dir.
Proof.
  apply (archives_are_of_listed_subdirectories fail_fast_world
           (TarOpen "z-backup-dirB.tar.gz")); [|done].
  rewrite fail_fast_trace. do 9 right. by left.
Defined.

Lemma update_loop_quiet w sub_dirs h :
  Forall (λ d, wf_tree d.2 = true
               ∧ ¬ ∃ m, m ∈ inspected d.2 ∧ newer_than (watermark h d.1) m)
    sub_dirs →
  final (update_loop w sub_dirs h) = h
  ∧ forallb is_print (trace (update_loop w sub_dirs h)) = true.
Proof.
  induction sub_dirs as [|[sub_dir tree] rest IH]; intros Hall; [done|].
  apply Forall_cons in Hall as [[Hwf Hno] Hall]. cbn [fst snd] in Hwf, Hno.
  cbn [update_loop]. unfold bind. rewrite update_step_eq. cbv zeta.
  pose proof (try_archive_unmodified w sub_dir tree (get_archive_name sub_dir) h
                Hwf Hno) as [Hf Hp]. cbv zeta in Hf, Hp.
  destruct (result (try_archive w sub_dir tree (get_archive_name sub_dir) h)).
  - rewrite Hf. destruct (IH Hall) as [Hf' Hp'].
    destruct (update_loop w rest h) as [[t2 h2] r2].
    cbn [trace final fst snd] in *. split; [done|].
    by rewrite forallb_app, Hp, Hp'.
  - unfold ret. cbn [trace final fst snd]. rewrite app_nil_r. split; [done|].
    by rewrite forallb_app, Hp.
Qed.

(** X19. A run in which no subdirectory has an inspected entry newer than
    its watermark archives nothing and changes nothing: it has no event
    of [tarfile], and it ends with the history it loaded. *)
Theorem quiet_run_archives_nothing w :
  Forall (λ d, wf_tree d.2 = true
               ∧ ¬ ∃ m, m ∈ inspected d.2
                        ∧ newer_than (watermark (loaded w) d.1) m)
    (listing w) →
  final (run w) = loaded w
  ∧ Forall (λ ev, is_tar ev = false) (trace (run w)).
Proof.
  intros Hall. rewrite run_eq.
  destruct (result (parse_archive_history w ∅)); [|by split; [|constructor]].
  cbv zeta. cbn [trace final fst snd].
  destruct (update_loop_quiet w (listing w) (loaded w) Hall) as [Hf Hp].
  split; [done|]. apply Forall_app_2.
  - apply Forall_forall. intros ev Hin. rewrite forallb_forall in Hp.
    apply list_elem_of_In, Hp in Hin. by destruct ev.
  - destruct (save_history_frame w (final (update_loop w (listing w) (loaded w))))
      as [_ [->|[d ->]]]; [constructor|]. by repeat constructor.
Qed.

Lemma quiet_run_archives_nothing_witness :
  final (run (no_faults (Xml.WellFormed sample_document)
                [("dir1", untouched_tree)] (qc 34000000001 20)))
  = {["dir1" := 1296758094]}.
Proof.
  refine (proj1 (quiet_run_archives_nothing
                   (no_faults (Xml.WellFormed sample_document)
                      [("dir1", untouched_tree)] (qc 34000000001 20)) _)).
  constructor; [|constructor]. split; [reflexivity|].
  by apply find_newer_None.
Defined.

(** *** The stamp and later changes *)

Lemma Qc_of_Z_this (z : Z) : (this (Qc_of_Z z) == inject_Z z)%Q.
Proof. reflexivity. Qed.

(** X20. A change made after the stamp was taken is not missed: for a
    clock past the epoch, an entry whose modification time is later than
    the clock read by [create_archive] is newer than the stamp that
    [create_archive] stored, so that [is_modified_after] will report
    it. *)
Theorem change_after_stamp_is_newer (clock file_mtime : Qc) :
  (0 ≤ clock)%Qc → (clock < file_mtime)%Qc →
  newer file_mtime (int_of_float clock) = true.
Proof.
  intros Hpos Hlt. apply newer_true. unfold newer_than, Qclt in *.
  rewrite Qc_of_Z_this.
  eapply Qle_lt_trans; [|exact Hlt].
  unfold int_of_float, Qcle, Qle in *. destruct clock as [[p q] Hc].
  cbn [this Qnum Qden inject_Z] in *.
  change (Qnum (Q2Qc 0)) with 0 in Hpos. change (QDen (Q2Qc 0)) with 1 in Hpos.
  assert (0 ≤ p) as Hp by lia.
  rewrite Z.quot_div_nonneg by lia.
  pose proof (Z.mul_div_le p (Z.pos q) ltac:(lia)). lia.
Qed.

Lemma change_after_stamp_is_newer_witness :
  newer (qc 34000000002 20) (int_of_float (qc 34000000001 20)) = true.
Proof. by apply change_after_stamp_is_newer. Defined.
